(** * fplData.py: the league report aggregation, verified

    A shallow embedding of [src/fplData.py].  The script is one linear
    pipeline: it loads the league standings and the player catalog,
    then runs three aggregators (chip usage, captaincy, transfers) that
    each issue read-only GET requests and accumulate rows of a table.

    Modelling choices, all taken from the script:
    - the remote API is a record [World] of functions from the request
      parameters to a response (status code and parsed JSON body); the
      script only inspects [status_code] and the body, and a request
      repeated within a run (the picks and live scores of the
      triple-captain week) gets the same answer; the standings and the
      catalog, which the script parses without a status check, are
      given as parsed documents;
    - JSON numbers the script uses as identifiers, gameweeks and points
      are [Z]; JSON objects are records with the keys the script reads;
      a key read with [.get(key, default)] is an [option] field;
    - a Python [dict] read by key only is a [gmap]; [entry_map], whose
      key order drives every loop, is an insertion-ordered association
      list;
    - an uncaught [KeyError]/[IndexError] ends the run: the aggregators
      live in an error monad [result];
    - a cell of an output table holds a [str] or an [int]. *)

From Stdlib Require Import ZArith.
From stdpp Require Import base option list gmap strings sorting.

Local Open Scope Z_scope.

(** ** Python values *)

Inductive exn := KeyError | IndexError.

Inductive result (A : Type) :=
  | Ok (a : A)
  | Raise (e : exn).
Arguments Ok {A} a.
Arguments Raise {A} e.

#[global] Instance result_ret : MRet result := @Ok.
#[global] Instance result_bind : MBind result := λ A B f m,
  match m with
  | Ok a => f a
  | Raise e => Raise e
  end.

(** [for x in l: body], threading the accumulated state; an exception
    in the body leaves the loop. *)
Fixpoint for_each {A S : Type} (body : A → S → result S) (l : list A) (s : S)
  : result S :=
  match l with
  | [] => Ok s
  | x :: l' => s' ← body x s; for_each body l' s'
  end.

(** A table cell: the script stores either a string or an integer. *)
Inductive cell :=
  | CStr (s : string)
  | CInt (z : Z).

#[global] Instance cell_eq_dec : EqDecision cell.
Proof. solve_decision. Defined.

(** The sentinel ['-']. *)
Definition sentinel : cell := CStr "-".

(** Truthiness of an [Optional[int]]: [None] and [0] are falsy.  The
    result is the value the guarded branch sees. *)
Definition truthy (o : option Z) : option Z :=
  match o with
  | Some z => if z =? 0 then None else Some z
  | None => None
  end.

(** [g == o] for an int [g] and an [Optional[int]] [o]. *)
Definition py_eq (g : Z) (o : option Z) : bool :=
  match o with
  | Some z => g =? z
  | None => false
  end.

(** [l[i]] on a list: negative indices count from the end. *)
Definition list_getitem {A : Type} (l : list A) (i : Z) : result A :=
  let n := Z.of_nat (length l) in
  let j := if i <? 0 then i + n else i in
  if (j <? 0) || (n <=? j) then Raise IndexError
  else match l !! Z.to_nat j with
       | Some x => Ok x
       | None => Raise IndexError
       end.

(** ** Dictionaries *)

(** [{key(e): val(e) for e in l}]: later elements overwrite earlier ones. *)
Definition dict_of {A V : Type} (key : A → Z) (val : A → V) (l : list A)
  : gmap Z V :=
  foldl (λ m e, <[key e := val e]> m) ∅ l.

(** The same comprehension with a value expression that can raise. *)
Definition dict_ofM {A V : Type} (key : A → Z) (val : A → result V)
    (l : list A) : result (gmap Z V) :=
  for_each (λ e m, v ← val e; Ok (<[key e := v]> m)) l ∅.

(** [d[k]] *)
Definition dict_getitem {V : Type} (d : gmap Z V) (k : Z) : result V :=
  match d !! k with
  | Some v => Ok v
  | None => Raise KeyError
  end.

(** [k in d] *)
Definition dict_in {V : Type} (k : Z) (d : gmap Z V) : bool :=
  bool_decide (is_Some (d !! k)).

(** [d.get(k)] on a dict whose values are themselves [Optional]. *)
Definition dict_get {V : Type} (d : gmap Z (option V)) (k : Z) : option V :=
  default None (d !! k).

(** [d.get(k, '-')] rendered as a cell. *)
Definition dict_get_cell {V : Type} (inj : V → cell) (d : gmap Z V) (k : Z)
  : cell :=
  from_option inj sentinel (d !! k).

(** An insertion-ordered dict: assignment to an existing key keeps its
    position, a new key goes to the end. *)
Fixpoint odict_set {V : Type} (k : Z) (v : V) (d : list (Z * V))
  : list (Z * V) :=
  match d with
  | [] => [(k, v)]
  | (k', v') :: d' =>
      if decide (k' = k) then (k, v) :: d' else (k', v') :: odict_set k v d'
  end.

Fixpoint odict_getitem {V : Type} (d : list (Z * V)) (k : Z) : result V :=
  match d with
  | [] => Raise KeyError
  | (k', v) :: d' => if decide (k' = k) then Ok v else odict_getitem d' k
  end.

Definition odict_keys {V : Type} (d : list (Z * V)) : list Z := d.*1.

(** ** The JSON documents the script reads *)

Module Standing.
Record t := { entry : Z; player_name : string; entry_name : string }.
End Standing.

Module Element.
Record t := { id : Z; web_name : string; team : Z; element_type : Z }.
End Element.

Module Team.
Record t := { name : string }.
End Team.

Module Position.
Record t := { singular_name : string }.
End Position.

Module Bootstrap.
Record t := {
    elements : list Element.t;
    teams : list Team.t;
    element_types : list Position.t
  }.
End Bootstrap.

Module Chip.
Record t := { name : string; event : Z }.
End Chip.

Module History.
Record t := { chips : option (list Chip.t) }.
End History.

Module Pick.
Record t := { element : Z; is_captain : bool }.
End Pick.

Module Picks.
Record t := { picks : option (list Pick.t) }.
End Picks.

Module LiveElement.
  (** [total_points] is read as [p['stats']['total_points']]. *)
Record t := { id : Z; total_points : Z }.
End LiveElement.

Module Live.
Record t := { elements : list LiveElement.t }.
End Live.

Module Transfer.
Record t := { element_in : Z; element_out : Z; event : Z }.
End Transfer.

Record response (A : Type) := { status_code : Z; json : A }.
Arguments status_code {A} r.
Arguments json {A} r.

(** What the data provider answers to each GET of the script. *)
Record World := {
  get_standings : list Standing.t;
  get_bootstrap : Bootstrap.t;
  get_history : Z → response History.t;
  get_picks : Z → Z → response Picks.t;
  get_live : Z → response Live.t;
  get_transfers : Z → response (list Transfer.t)
}.

(** ** The rows of the three tables *)

Record entry_info := { manager_name : string; team_name : string }.

Module ChipRow.
Record t := {
    manager_name : string;
    team_name : string;
    wildcard_1 : cell;
    wildcard_2 : cell;
    free_hit : cell;
    bench_boost : cell;
    triple_captain : cell;
    triple_captain_player : cell;
    tc_points : cell
  }.

Definition set_wildcard_1 (v : cell) (d : t) : t :=
    {| manager_name := manager_name d; team_name := team_name d;
       wildcard_1 := v; wildcard_2 := wildcard_2 d; free_hit := free_hit d;
       bench_boost := bench_boost d; triple_captain := triple_captain d;
       triple_captain_player := triple_captain_player d;
       tc_points := tc_points d |}.
Definition set_wildcard_2 (v : cell) (d : t) : t :=
    {| manager_name := manager_name d; team_name := team_name d;
       wildcard_1 := wildcard_1 d; wildcard_2 := v; free_hit := free_hit d;
       bench_boost := bench_boost d; triple_captain := triple_captain d;
       triple_captain_player := triple_captain_player d;
       tc_points := tc_points d |}.
Definition set_free_hit (v : cell) (d : t) : t :=
    {| manager_name := manager_name d; team_name := team_name d;
       wildcard_1 := wildcard_1 d; wildcard_2 := wildcard_2 d; free_hit := v;
       bench_boost := bench_boost d; triple_captain := triple_captain d;
       triple_captain_player := triple_captain_player d;
       tc_points := tc_points d |}.
Definition set_bench_boost (v : cell) (d : t) : t :=
    {| manager_name := manager_name d; team_name := team_name d;
       wildcard_1 := wildcard_1 d; wildcard_2 := wildcard_2 d;
       free_hit := free_hit d; bench_boost := v;
       triple_captain := triple_captain d;
       triple_captain_player := triple_captain_player d;
       tc_points := tc_points d |}.
Definition set_triple_captain (v : cell) (d : t) : t :=
    {| manager_name := manager_name d; team_name := team_name d;
       wildcard_1 := wildcard_1 d; wildcard_2 := wildcard_2 d;
       free_hit := free_hit d; bench_boost := bench_boost d;
       triple_captain := v;
       triple_captain_player := triple_captain_player d;
       tc_points := tc_points d |}.
Definition set_triple_captain_player (v : cell) (d : t) : t :=
    {| manager_name := manager_name d; team_name := team_name d;
       wildcard_1 := wildcard_1 d; wildcard_2 := wildcard_2 d;
       free_hit := free_hit d; bench_boost := bench_boost d;
       triple_captain := triple_captain d;
       triple_captain_player := v;
       tc_points := tc_points d |}.
Definition set_tc_points (v : cell) (d : t) : t :=
    {| manager_name := manager_name d; team_name := team_name d;
       wildcard_1 := wildcard_1 d; wildcard_2 := wildcard_2 d;
       free_hit := free_hit d; bench_boost := bench_boost d;
       triple_captain := triple_captain d;
       triple_captain_player := triple_captain_player d;
       tc_points := v |}.

  (** The seven chip fields, in column order. *)
Definition chip_fields (d : t) : list cell :=
    [wildcard_1 d; wildcard_2 d; free_hit d; bench_boost d;
     triple_captain d; triple_captain_player d; tc_points d].
End ChipRow.

Module CaptaincyRow.
Record t := {
    manager_name : string;
    team_name : string;
    gameweek : Z;
    captain : cell;
    captain_points : cell;
    triple_captain_used : string
  }.
End CaptaincyRow.

Module TransferRow.
Record t := {
    manager_name : string;
    team_name : string;
    gameweek : Z;
    player_out : string;
    out_team : string;
    out_position : string;
    player_in : string;
    in_team : string;
    in_position : string;
    free_hit_active : string
  }.
End TransferRow.

(** ** Reference data (lines 10-32) *)

(** [entry_map], filled row by row from the standings. *)
Definition build_entry_map (results : list Standing.t)
  : list (Z * entry_info) :=
  foldl (λ m entry,
           odict_set (Standing.entry entry)
             {| manager_name := Standing.player_name entry;
                team_name := Standing.entry_name entry |} m)
        [] results.

Record catalog := {
  id_to_name : gmap Z string;
  id_to_team : gmap Z string;
  id_to_position : gmap Z string
}.

(** The three comprehensions over [elements]; [teams[e['team'] - 1]] and
    [positions[e['element_type'] - 1]] index a list and can raise. *)
Definition build_catalog (bootstrap : Bootstrap.t) : result catalog :=
  let elements := Bootstrap.elements bootstrap in
  let teams := Bootstrap.teams bootstrap in
  let positions := Bootstrap.element_types bootstrap in
  let names := dict_of Element.id Element.web_name elements in
  by_team ← dict_ofM Element.id
    (λ e, tm ← list_getitem teams (Element.team e - 1); Ok (Team.name tm))
    elements;
  by_position ← dict_ofM Element.id
    (λ e, p ← list_getitem positions (Element.element_type e - 1);
          Ok (Position.singular_name p))
    elements;
  Ok {| id_to_name := names; id_to_team := by_team;
        id_to_position := by_position |}.

(** [next((p['element'] for p in picks if p['is_captain']), None)] *)
Definition captain_of (picks : list Pick.t) : option Z :=
  Pick.element <$> List.find Pick.is_captain picks.

(** [{p['id']: p['stats']['total_points'] for p in live['elements']}] *)
Definition points_map (live : Live.t) : gmap Z Z :=
  dict_of LiveElement.id LiveElement.total_points (Live.elements live).

(** [range(1, 39)] *)
Definition gameweeks : list Z := seqZ 1 38.

(** The state the chip loop accumulates in its three globals. *)
Record chip_state := {
  chip_data : list ChipRow.t;
  free_hit_by_entry : gmap Z (option Z);
  triple_captain_week_by_entry : gmap Z (option Z)
}.

Definition chip_state_init : chip_state :=
  {| chip_data := []; free_hit_by_entry := ∅;
     triple_captain_week_by_entry := ∅ |}.

(** The fresh [chip_dict] of lines 44-54. *)
Definition chip_dict_init (info : entry_info) : ChipRow.t :=
  {| ChipRow.manager_name := manager_name info;
     ChipRow.team_name := team_name info;
     ChipRow.wildcard_1 := sentinel;
     ChipRow.wildcard_2 := sentinel;
     ChipRow.free_hit := sentinel;
     ChipRow.bench_boost := sentinel;
     ChipRow.triple_captain := sentinel;
     ChipRow.triple_captain_player := sentinel;
     ChipRow.tc_points := sentinel |}.

(** One iteration of [for chip in chips] (lines 61-76) on the triple
    ([chip_dict], [free_hit_week], [triple_captain_week]). *)
Definition chip_step (st : ChipRow.t * option Z * option Z) (chip : Chip.t)
  : ChipRow.t * option Z * option Z :=
  let '(chip_dict, free_hit_week, triple_captain_week) := st in
  let name := Chip.name chip in
  let gw := Chip.event chip in
  if String.eqb name "wildcard" then
    if gw <=? 20
    then (ChipRow.set_wildcard_1 (CInt gw) chip_dict,
          free_hit_week, triple_captain_week)
    else (ChipRow.set_wildcard_2 (CInt gw) chip_dict,
          free_hit_week, triple_captain_week)
  else if String.eqb name "freehit" then
    (ChipRow.set_free_hit (CInt gw) chip_dict, Some gw, triple_captain_week)
  else if String.eqb name "3xc" then
    (ChipRow.set_triple_captain (CInt gw) chip_dict, free_hit_week, Some gw)
  else if String.eqb name "bboost" then
    (ChipRow.set_bench_boost (CInt gw) chip_dict,
     free_hit_week, triple_captain_week)
  else st.

Section Aggregators.
Variable w : World.
Variable entry_map : list (Z * entry_info).
Variable cat : catalog.

  (** *** Step 1: chip usage (lines 35-97) *)

  (** Lines 59-76: the chips of a history response. *)
Definition scan_history (resp : response History.t) (chip_dict : ChipRow.t)
    : ChipRow.t * option Z * option Z :=
    if status_code resp =? 200 then
      let chips := default [] (History.chips (json resp)) in
      foldl chip_step (chip_dict, None, None) chips
    else (chip_dict, None, None).

  (** Lines 81-95: the captain and points of the triple-captain week. *)
Definition resolve_triple_captain (entry_id : Z)
      (triple_captain_week : option Z) (chip_dict : ChipRow.t)
    : result ChipRow.t :=
    match truthy triple_captain_week with
    | Some week =>
        let picks_resp := get_picks w entry_id week in
        let live_resp := get_live w week in
        if (status_code picks_resp =? 200) && (status_code live_resp =? 200)
        then
          match Picks.picks (json picks_resp) with
          | None => Raise KeyError
          | Some picks =>
              match truthy (captain_of picks) with
              | Some captain_id =>
                  let chip_dict :=
                    ChipRow.set_triple_captain_player
                      (dict_get_cell CStr (id_to_name cat) captain_id)
                      chip_dict in
                  let player_stats := points_map (json live_resp) in
                  Ok (ChipRow.set_tc_points
                        (dict_get_cell CInt player_stats captain_id)
                        chip_dict)
              | None => Ok chip_dict
              end
          end
        else Ok chip_dict
    | None => Ok chip_dict
    end.

  (** The body of [for entry_id in entries] (lines 41-97). *)
Definition chip_entry (entry_id : Z) (st : chip_state) : result chip_state :=
    let resp := get_history w entry_id in
    info ← odict_getitem entry_map entry_id;
    let '(chip_dict, free_hit_week, triple_captain_week) :=
      scan_history resp (chip_dict_init info) in
    let fh := <[entry_id := free_hit_week]> (free_hit_by_entry st) in
    let tc :=
      <[entry_id := triple_captain_week]> (triple_captain_week_by_entry st) in
    chip_dict ← resolve_triple_captain entry_id triple_captain_week chip_dict;
    Ok {| chip_data := chip_data st ++ [chip_dict];
          free_hit_by_entry := fh;
          triple_captain_week_by_entry := tc |}.

Definition chip_loop (entries : list Z) : chip_state → result chip_state :=
    for_each chip_entry entries.

  (** *** Step 2: captaincy (lines 103-142) *)

Variable chips : chip_state.

  (** ["Yes" if gw == d.get(entry_id) else "No"] *)
Definition flag (gw : Z) (d : gmap Z (option Z)) (entry_id : Z) : string :=
    if py_eq gw (dict_get d entry_id) then "Yes" else "No".

  (** The body of the inner [for entry_id in entries] (lines 118-142). *)
Definition captaincy_entry (gw : Z) (player_points_map : gmap Z Z)
      (entry_id : Z) (captaincy_data : list CaptaincyRow.t)
    : result (list CaptaincyRow.t) :=
    let picks_resp := get_picks w entry_id gw in
    if negb (status_code picks_resp =? 200) then Ok captaincy_data
    else
      let picks := default [] (Picks.picks (json picks_resp)) in
      match truthy (captain_of picks) with
      | Some captain_id =>
          info ← odict_getitem entry_map entry_id;
          let player_name := dict_get_cell CStr (id_to_name cat) captain_id in
          let player_points :=
            dict_get_cell CInt player_points_map captain_id in
          let triple_captain_used :=
            flag gw (triple_captain_week_by_entry chips) entry_id in
          Ok (captaincy_data ++
              [{| CaptaincyRow.manager_name := manager_name info;
                  CaptaincyRow.team_name := team_name info;
                  CaptaincyRow.gameweek := gw;
                  CaptaincyRow.captain := player_name;
                  CaptaincyRow.captain_points := player_points;
                  CaptaincyRow.triple_captain_used := triple_captain_used |}])
      | None => Ok captaincy_data
      end.

  (** The body of [for gw in range(1, 39)] (lines 106-142). *)
Definition captaincy_gw (entries : list Z) (gw : Z)
      (captaincy_data : list CaptaincyRow.t) : result (list CaptaincyRow.t) :=
    let live_resp := get_live w gw in
    if negb (status_code live_resp =? 200) then Ok captaincy_data
    else
      let player_points_map := points_map (json live_resp) in
      for_each (captaincy_entry gw player_points_map) entries captaincy_data.

Definition captaincy_loop (entries : list Z)
    : list CaptaincyRow.t → result (list CaptaincyRow.t) :=
    for_each (captaincy_gw entries) gameweeks.

  (** *** Step 3: transfers (lines 148-180) *)

  (** The body of [for t in transfers] (lines 158-174).  The dict
      literal evaluates its values in the order they are written. *)
Definition transfer_step (entry_id : Z) (t : Transfer.t)
      (all_transfers : list TransferRow.t) : result (list TransferRow.t) :=
    if negb (dict_in (Transfer.element_in t) (id_to_name cat))
       || negb (dict_in (Transfer.element_out t) (id_to_name cat))
    then Ok all_transfers
    else
      let free_hit_used :=
        flag (Transfer.event t) (free_hit_by_entry chips) entry_id in
      manager ← odict_getitem entry_map entry_id;
      team ← odict_getitem entry_map entry_id;
      p_out ← dict_getitem (id_to_name cat) (Transfer.element_out t);
      t_out ← dict_getitem (id_to_team cat) (Transfer.element_out t);
      pos_out ← dict_getitem (id_to_position cat) (Transfer.element_out t);
      p_in ← dict_getitem (id_to_name cat) (Transfer.element_in t);
      t_in ← dict_getitem (id_to_team cat) (Transfer.element_in t);
      pos_in ← dict_getitem (id_to_position cat) (Transfer.element_in t);
      Ok (all_transfers ++
          [{| TransferRow.manager_name := manager_name manager;
              TransferRow.team_name := team_name team;
              TransferRow.gameweek := Transfer.event t;
              TransferRow.player_out := p_out;
              TransferRow.out_team := t_out;
              TransferRow.out_position := pos_out;
              TransferRow.player_in := p_in;
              TransferRow.in_team := t_in;
              TransferRow.in_position := pos_in;
              TransferRow.free_hit_active := free_hit_used |}]).

  (** The body of [for entry_id in entries] (lines 152-174). *)
Definition transfers_entry (entry_id : Z)
      (all_transfers : list TransferRow.t) : result (list TransferRow.t) :=
    let resp := get_transfers w entry_id in
    if status_code resp =? 200
    then for_each (transfer_step entry_id) (json resp) all_transfers
    else Ok all_transfers.

Definition transfers_loop (entries : list Z)
    : list TransferRow.t → result (list TransferRow.t) :=
    for_each transfers_entry entries.
End Aggregators.

(** ** The sort of the transfer table (lines 179-180)

    [DataFrame.sort_values(by=['Gameweek', 'Manager Name'])] belongs to
    pandas.  Its documented result is modelled: the rows reordered by
    the two keys compared lexicographically, rows with equal keys
    keeping their relative order.  Strings compare by code point, which
    on the UTF-8 bytes of [string] is [String.leb]. *)

Definition row_leb (r1 r2 : TransferRow.t) : bool :=
  (TransferRow.gameweek r1 <? TransferRow.gameweek r2)
  || ((TransferRow.gameweek r1 =? TransferRow.gameweek r2)
      && String.leb (TransferRow.manager_name r1)
                    (TransferRow.manager_name r2)).

Fixpoint insert_row (r : TransferRow.t) (l : list TransferRow.t)
  : list TransferRow.t :=
  match l with
  | [] => [r]
  | r' :: l' => if row_leb r r' then r :: l else r' :: insert_row r l'
  end.

Definition sort_values (df : list TransferRow.t) : list TransferRow.t :=
  foldr insert_row [] df.

(** [if not df_transfers.empty: df_transfers.sort_values(...)] *)
Definition sort_transfers (df : list TransferRow.t) : list TransferRow.t :=
  match df with
  | [] => df
  | _ :: _ => sort_values df
  end.

(** ** The whole script up to the three tables

    [run] is the script from line 10 to line 180: it returns the
    globals the script holds when it starts writing the workbook.  The
    three sheets are [df_transfers], [chip_data chips] ([df_chips]) and
    [captaincy_data] ([df_captaincy]). *)

Record globals := {
  entry_map : list (Z * entry_info);
  entries : list Z;
  cat : catalog;
  chips : chip_state;
  captaincy_data : list CaptaincyRow.t;
  all_transfers : list TransferRow.t;
  df_transfers : list TransferRow.t
}.

Definition run (w : World) : result globals :=
  let entry_map := build_entry_map (get_standings w) in
  let entries := odict_keys entry_map in
  cat ← build_catalog (get_bootstrap w);
  chips ← chip_loop w entry_map cat entries chip_state_init;
  captaincy_data ← captaincy_loop w entry_map cat chips entries [];
  all_transfers ← transfers_loop w entry_map cat chips entries [];
  Ok {| entry_map := entry_map;
        entries := entries;
        cat := cat;
        chips := chips;
        captaincy_data := captaincy_data;
        all_transfers := all_transfers;
        df_transfers := sort_transfers all_transfers |}.

Definition df_chips (g : globals) : list ChipRow.t := chip_data (chips g).
Definition df_captaincy (g : globals) : list CaptaincyRow.t :=
  captaincy_data g.

(** ** The workbook (lines 183-201)

    [DataFrame.to_excel(..., index=False)] belongs to pandas and the
    worksheet to openpyxl.  Their documented behaviour is modelled: a
    sheet is the grid of its cell values, row 1 first; a table built
    from a list of dicts is written as one header row with the keys in
    the order of the dict literal, followed by one row per record; a
    table built from the empty list has no columns and gives an empty
    sheet.  Of the cell styles only the fill the script assigns is
    kept: the set of the cells that carry [green_fill]. *)

Record worksheet := {
  ws_rows : list (list cell);
  ws_green : gset (nat * nat)
}.

(** [ws.cell(r, c).value], rows and columns counted from 1; [None] for
    a cell the sheet does not hold. *)
Definition cell_value (ws : worksheet) (r c : nat) : option cell :=
  ws_rows ws !! pred r ≫= λ row, row !! pred c.










(** The body of the two loops of step 5 on the cell at ([r], [c]). *)
Definition highlight_cell (ws : worksheet) (r c : nat) : worksheet :=
  if decide (cell_value ws r c = Some (CStr "Yes"))
  then {| ws_rows := ws_rows ws; ws_green := {[(r, c)]} ∪ ws_green ws |}
  else ws.

(** [for row in ws.iter_rows(min_row=2, min_col=6, max_col=6)]: the rows
    2 to [ws.max_row], each reduced to its cell of column 6. *)
Definition highlight (ws : worksheet) : worksheet :=
  foldl (λ ws r, foldl (λ ws c, highlight_cell ws r c) ws (seq 6 1))
        ws (seq 2 (length (ws_rows ws) - 1)).



(** ** Vocabulary of the statements *)

(** The gameweek of the last activation of chip [name] in a history:
    what [for chip in chips] leaves in a week variable. *)
Definition last_activation (name : string) (chips : list Chip.t) : option Z :=
  Chip.event <$> last (filter (λ c, Chip.name c = name) chips).

(** The gameweek of the last wildcard activation of one half of the
    season ([first_half]: gameweek 20 or before). *)
Definition last_wildcard (first_half : bool) (chips : list Chip.t)
  : option Z :=
  Chip.event <$>
    last (filter (λ c, Chip.name c = "wildcard"
                       ∧ bool_decide (Chip.event c ≤ 20) = first_half) chips).

(** The week the chip loop stores for an entry, read off the history
    response: [None] when the fetch failed or the chip is not listed. *)
Definition stored_week (name : string) (resp : response History.t)
  : option Z :=
  if status_code resp =? 200
  then last_activation name (default [] (History.chips (json resp)))
  else None.

(** What the scan of a chip list leaves in the row and in the two week
    variables: per field, the last activation that writes it. *)
Record scanned (d : ChipRow.t) (chips : list Chip.t)
    (st : ChipRow.t * option Z * option Z) : Prop := {
  scanned_free_hit_week : st.1.2 = last_activation "freehit" chips;
  scanned_triple_captain_week : st.2 = last_activation "3xc" chips;
  scanned_manager : ChipRow.manager_name st.1.1 = ChipRow.manager_name d;
  scanned_team : ChipRow.team_name st.1.1 = ChipRow.team_name d;
  scanned_wildcard_1 :
    ChipRow.wildcard_1 st.1.1
    = from_option CInt (ChipRow.wildcard_1 d) (last_wildcard true chips);
  scanned_wildcard_2 :
    ChipRow.wildcard_2 st.1.1
    = from_option CInt (ChipRow.wildcard_2 d) (last_wildcard false chips);
  scanned_free_hit :
    ChipRow.free_hit st.1.1
    = from_option CInt (ChipRow.free_hit d) (last_activation "freehit" chips);
  scanned_bench_boost :
    ChipRow.bench_boost st.1.1
    = from_option CInt (ChipRow.bench_boost d)
        (last_activation "bboost" chips);
  scanned_triple_captain :
    ChipRow.triple_captain st.1.1
    = from_option CInt (ChipRow.triple_captain d)
        (last_activation "3xc" chips);
  scanned_player :
    ChipRow.triple_captain_player st.1.1 = ChipRow.triple_captain_player d;
  scanned_points : ChipRow.tc_points st.1.1 = ChipRow.tc_points d
}.

(** [row] is the chip record of entry [e]: the loop body, started on
    empty globals, appends exactly [row]. *)
Definition chip_record (w : World) (em : list (Z * entry_info))
    (cat : catalog) (e : Z) (row : ChipRow.t) : Prop :=
  ∃ st, chip_entry w em cat e chip_state_init = Ok st ∧ chip_data st = [row].

(** [row] is the captaincy record of entry [e] in gameweek [gw]: the
    live scores of [gw] were available and the loop body, started on an
    empty table, appends exactly [row]. *)
Definition captaincy_record (w : World) (g : globals) (e gw : Z)
    (row : CaptaincyRow.t) : Prop :=
  status_code (get_live w gw) = 200
  ∧ captaincy_entry w (entry_map g) (cat g) (chips g) gw
      (points_map (json (get_live w gw))) e [] = Ok [row].

(** The transfers of the logs that were fetched, in loop order. *)
Definition transfer_log (w : World) (entries : list Z)
  : list (Z * Transfer.t) :=
  e ← entries;
  if status_code (get_transfers w e) =? 200
  then pair e <$> json (get_transfers w e)
  else [].

(** [row] is the transfer record of transfer [t] of entry [e]. *)
Definition transfer_record (w : World) (g : globals) (e : Z) (t : Transfer.t)
    (row : TransferRow.t) : Prop :=
  transfer_step (entry_map g) (cat g) (chips g) e t [] = Ok [row].

(** [row] carries the names of entry [info] and the catalog data of
    both players of transfer [t]. *)
Definition transfer_row_of (cat : catalog) (info : entry_info)
    (t : Transfer.t) (row : TransferRow.t) : Prop :=
  TransferRow.manager_name row = manager_name info
  ∧ TransferRow.team_name row = team_name info
  ∧ TransferRow.gameweek row = Transfer.event t
  ∧ id_to_name cat !! Transfer.element_out t = Some (TransferRow.player_out row)
  ∧ id_to_team cat !! Transfer.element_out t = Some (TransferRow.out_team row)
  ∧ id_to_position cat !! Transfer.element_out t
    = Some (TransferRow.out_position row)
  ∧ id_to_name cat !! Transfer.element_in t = Some (TransferRow.player_in row)
  ∧ id_to_team cat !! Transfer.element_in t = Some (TransferRow.in_team row)
  ∧ id_to_position cat !! Transfer.element_in t
    = Some (TransferRow.in_position row).

(** A transfer of a log is kept when both its player ids are catalog
    keys. *)
Definition kept (cat : catalog) (et : Z * Transfer.t) : Prop :=
  Transfer.element_in et.2 ∈ dom (id_to_name cat)
  ∧ Transfer.element_out et.2 ∈ dom (id_to_name cat).

#[global] Instance kept_dec (cat : catalog) (et : Z * Transfer.t)
  : Decision (kept cat et).
Proof. unfold kept. apply _. Defined.

(** The order of the sorted transfer table. *)
Definition row_le (r1 r2 : TransferRow.t) : Prop :=
  TransferRow.gameweek r1 < TransferRow.gameweek r2
  ∨ (TransferRow.gameweek r1 = TransferRow.gameweek r2
     ∧ String.le (TransferRow.manager_name r1) (TransferRow.manager_name r2)).

(** A loop body that only appends rows to its table. *)
Definition appending {A R : Type} (body : A → list R → result (list R))
  : Prop :=
  ∀ x acc, body x acc = (rows ← body x []; Ok (acc ++ rows)).



(** A provider whose answers never lack a key the script indexes. *)
Definition well_formed (w : World) : Prop :=
  let b := get_bootstrap w in
  Forall (λ e, 1 ≤ Element.team e ≤ Z.of_nat (length (Bootstrap.teams b))
               ∧ 1 ≤ Element.element_type e
                   ≤ Z.of_nat (length (Bootstrap.element_types b)))
         (Bootstrap.elements b)
  ∧ ∀ e gw, status_code (get_picks w e gw) = 200 →
            is_Some (Picks.picks (json (get_picks w e gw))).

(** ** A small league, used to run the script on *)

Module Demo.
Definition standings : list Standing.t :=
  [ {| Standing.entry := 100; Standing.player_name := "Alice";
       Standing.entry_name := "Alpha FC" |};
    {| Standing.entry := 200; Standing.player_name := "Bob";
       Standing.entry_name := "Beta FC" |};
    {| Standing.entry := 300; Standing.player_name := "Carol";
       Standing.entry_name := "Gamma FC" |} ].

Definition bootstrap : Bootstrap.t :=
  {| Bootstrap.elements :=
       [ {| Element.id := 7; Element.web_name := "Salah";
            Element.team := 1; Element.element_type := 3 |};
         {| Element.id := 9; Element.web_name := "Haaland";
            Element.team := 2; Element.element_type := 4 |} ];
     Bootstrap.teams :=
       [ {| Team.name := "Liverpool" |}; {| Team.name := "Man City" |} ];
     Bootstrap.element_types :=
       [ {| Position.singular_name := "Goalkeeper" |};
         {| Position.singular_name := "Defender" |};
         {| Position.singular_name := "Midfielder" |};
         {| Position.singular_name := "Forward" |} ] |}.


Definition chip (n : string) (gw : Z) : Chip.t :=
  {| Chip.name := n; Chip.event := gw |}.

Definition pick (p : Z) (c : bool) : Pick.t :=
  {| Pick.element := p; Pick.is_captain := c |}.

Definition history (e : Z) : response History.t :=
  if e =? 100 then
    {| status_code := 200;
       json := {| History.chips := Some [chip "3xc" 15] |} |}
  else if e =? 200 then
    {| status_code := 200;
       json := {| History.chips :=
                    Some [chip "wildcard" 20; chip "freehit" 3;
                          chip "wildcard" 21; chip "bboost" 30] |} |}
  else {| status_code := 503; json := {| History.chips := None |} |}.

Definition picks (e gw : Z) : response Picks.t :=
  if e =? 100 then
    if gw =? 15
    then {| status_code := 200;
            json := {| Picks.picks := Some [pick 9 false; pick 7 true] |} |}
    else {| status_code := 200;
            json := {| Picks.picks := Some [pick 9 true; pick 7 false] |} |}
  else if e =? 200 then
    if gw <=? 2
    then {| status_code := 200;
            json := {| Picks.picks := Some [pick 7 false; pick 9 false] |} |}
    else {| status_code := 200;
            json := {| Picks.picks := Some [pick 7 true] |} |}
  else {| status_code := 404; json := {| Picks.picks := None |} |}.

Definition live (gw : Z) : response Live.t :=
  if gw <=? 20 then
    {| status_code := 200;
       json := {| Live.elements :=
                    [ {| LiveElement.id := 7;
                         LiveElement.total_points := if gw =? 15 then 18 else 6 |};
                      {| LiveElement.id := 9;
                         LiveElement.total_points := 2 |} ] |} |}
  else {| status_code := 503; json := {| Live.elements := [] |} |}.

Definition transfer (i o gw : Z) : Transfer.t :=
  {| Transfer.element_in := i; Transfer.element_out := o;
     Transfer.event := gw |}.

Definition transfers (e : Z) : response (list Transfer.t) :=
  if e =? 100 then
    {| status_code := 200;
       json := [transfer 7 9 3; transfer 99 7 4; transfer 9 7 2] |}
  else if e =? 200 then
    {| status_code := 200; json := [transfer 9 7 3; transfer 7 9 2] |}
  else {| status_code := 500; json := [] |}.


Definition world : World :=
  {| get_standings := standings;
     get_bootstrap := bootstrap;
     get_history := history;
     get_picks := picks;
     get_live := live;
     get_transfers := transfers |}.

End Demo.

(** * Properties *)

(** ** Loops *)

Section ForEach.
Context {A S : Type}.
Implicit Types (body : A → S → result S) (l : list A) (s : S).

Lemma for_each_app body l1 l2 s :
  for_each body (l1 ++ l2) s = (s' ← for_each body l1 s; for_each body l2 s').
Proof.
  revert s. induction l1 as [|x l1 IH]; intros s; simpl; [done|].
  destruct (body x s) as [s'|e]; simpl; [apply IH | done].
Qed.

(** An iteration that runs [continue] can be dropped from the loop. *)
Lemma for_each_skip body l1 x l2 s :
  (∀ s', body x s' = Ok s') →
  for_each body (l1 ++ x :: l2) s = for_each body (l1 ++ l2) s.
Proof.
  intros Hx. rewrite !for_each_app.
  destruct (for_each body l1 s) as [s'|e]; simpl; [|done].
  by rewrite Hx.
Qed.

(** A loop whose iterations all succeed succeeds. *)
Lemma for_each_total body l s :
  (∀ x s', x ∈ l → ∃ s'', body x s' = Ok s'') →
  ∃ s', for_each body l s = Ok s'.
Proof.
  revert s. induction l as [|x l IH]; intros s Hl; simpl; [eauto|].
  destruct (Hl x s) as [s'' ->]; [left|]. simpl.
  apply IH. intros y s' Hy. apply Hl. by right.
Qed.

(** An invariant of the state carried through a loop. *)
Lemma for_each_ind (P : list A → S → Prop) body l s s' :
  P [] s →
  (∀ done x s1 s2, P done s1 → body x s1 = Ok s2 → P (done ++ [x]) s2) →
  for_each body l s = Ok s' → P l s'.
Proof.
  intros H0 Hstep. change l with ([] ++ l) at 2.
  generalize (@nil A) H0. clear H0. revert s.
  induction l as [|x l IH]; intros s done Hd; simpl.
  - intros [= <-]. by rewrite app_nil_r.
  - destruct (body x s) as [s1|e] eqn:Hb; simpl; [|done].
    intros Hl. replace (done ++ x :: l) with ((done ++ [x]) ++ l)
      by by rewrite <- app_assoc.
    eapply IH; [|exact Hl]. eauto.
Qed.
End ForEach.

Section Appending.
Context {A R : Type}.
Implicit Types (body : A → list R → result (list R)) (l : list A).

Lemma for_each_appending body l :
  appending body →
  ∀ acc, for_each body l acc = (rows ← for_each body l []; Ok (acc ++ rows)).
Proof.
  intros Hb. induction l as [|x l IH]; intros acc; simpl.
  - by rewrite app_nil_r.
  - rewrite (Hb x acc). destruct (body x []) as [rows|e]; simpl; [|done].
    rewrite (IH (acc ++ rows)), (IH rows).
    destruct (for_each body l []) as [rows'|e]; simpl; [|done].
    by rewrite app_assoc.
Qed.

(** The table a loop of appending iterations builds is the
    concatenation of what each iteration appends. *)
Lemma for_each_chunks body l acc res :
  appending body →
  for_each body l acc = Ok res →
  ∃ chunks, res = acc ++ concat chunks
            ∧ Forall2 (λ x c, body x [] = Ok c) l chunks.
Proof.
  intros Hb. revert acc res. induction l as [|x l IH]; intros acc res; simpl.
  - intros [= <-]. exists []. by rewrite app_nil_r.
  - rewrite (Hb x acc). destruct (body x []) as [rows|e] eqn:Hx; simpl; [|done].
    intros (chunks & -> & Hch)%IH. exists (rows :: chunks). split.
    + simpl. by rewrite app_assoc.
    + by constructor.
Qed.
(** Every iteration of a completed appending loop succeeds on its own. *)
Lemma for_each_each_ok body l acc res x :
  appending body →
  for_each body l acc = Ok res →
  x ∈ l → ∃ rows, body x [] = Ok rows.
Proof.
  intros Hb (chunks & _ & Hch)%for_each_chunks [i Hi]%list_elem_of_lookup;
    [|done].
  destruct (Forall2_lookup_l _ _ _ _ _ Hch Hi) as (c & _ & Hc). eauto.
Qed.
End Appending.

(** ** Dictionaries *)

Section Dict.
Context {A V : Type} (key : A → Z).

Lemma dict_of_snoc (val : A → V) l x :
  dict_of key val (l ++ [x]) = <[key x := val x]> (dict_of key val l).
Proof. unfold dict_of. by rewrite foldl_snoc. Qed.

(** A comprehension maps a key to the value of the last element that
    carries it. *)
Lemma dict_of_lookup (val : A → V) l k :
  dict_of key val l !! k = val <$> last (filter (λ e, key e = k) l).
Proof.
  induction l as [|x l IH] using rev_ind; [done|].
  rewrite dict_of_snoc, filter_app, filter_cons, filter_nil.
  destruct (decide (key x = k)) as [<-|Hne].
  - by rewrite lookup_insert_eq, last_snoc.
  - by rewrite lookup_insert_ne, app_nil_r.
Qed.

Lemma dict_of_dom (val : A → V) l :
  dom (dict_of key val l) = list_to_set (key <$> l).
Proof.
  induction l as [|x l IH] using rev_ind; [apply dom_empty_L|].
  rewrite dict_of_snoc, dom_insert_L, IH, fmap_app, list_to_set_app_L.
  simpl. rewrite (right_id_L ∅ (∪)). apply (comm_L (∪)).
Qed.

(** When every element carrying [k] has the same value, that value is
    what the comprehension stores. *)
Lemma dict_of_lookup_agree (val : A → V) l k v :
  (∃ e, e ∈ l ∧ key e = k) →
  (∀ e, e ∈ l → key e = k → val e = v) →
  dict_of key val l !! k = Some v.
Proof.
  intros (e & He & Hk) Hall. rewrite dict_of_lookup.
  destruct (last (filter (λ e, key e = k) l)) as [e'|] eqn:Hl.
  - apply last_Some_elem_of, list_elem_of_filter in Hl as [Hk' He'].
    simpl. f_equal. by apply Hall.
  - apply last_None in Hl.
    assert (e ∈ filter (λ e, key e = k) l) as Hin
      by by apply list_elem_of_filter.
    rewrite Hl in Hin. by apply not_elem_of_nil in Hin.
Qed.

Lemma dict_ofM_dom (val : A → result V) l m :
  dict_ofM key val l = Ok m → dom m = list_to_set (key <$> l).
Proof.
  unfold dict_ofM. intros Hm.
  pattern l, m.
  eapply for_each_ind; [| |exact Hm]; simpl.
  - by rewrite dom_empty_L.
  - intros done x m1 m2 IH. destruct (val x) as [v|e]; simpl; [|done].
    intros [= <-]. rewrite dom_insert_L, IH, fmap_app, list_to_set_app_L.
    simpl. rewrite (right_id_L ∅ (∪)). apply (comm_L (∪)).
Qed.

Lemma dict_ofM_total (val : A → result V) l :
  (∀ x, x ∈ l → ∃ v, val x = Ok v) → ∃ m, dict_ofM key val l = Ok m.
Proof.
  intros Hv. apply for_each_total. intros x m Hx.
  destruct (Hv x Hx) as [v ->]. simpl. eauto.
Qed.
End Dict.

Lemma dict_in_dom {V : Type} (k : Z) (d : gmap Z V) :
  dict_in k d = true ↔ k ∈ dom d.
Proof. unfold dict_in. by rewrite bool_decide_eq_true, elem_of_dom. Qed.

Lemma dict_getitem_dom {V : Type} (d : gmap Z V) (k : Z) :
  k ∈ dom d → ∃ v, dict_getitem d k = Ok v ∧ d !! k = Some v.
Proof.
  intros [v Hv]%elem_of_dom. exists v. unfold dict_getitem. by rewrite Hv.
Qed.

Lemma list_getitem_in_range {A : Type} (l : list A) (i : Z) :
  0 ≤ i < Z.of_nat (length l) → ∃ x, list_getitem l i = Ok x.
Proof.
  intros Hi. unfold list_getitem.
  destruct (i <? 0) eqn:Hneg; [lia|].
  destruct ((i <? 0) || (Z.of_nat (length l) <=? i)) eqn:Hout; [lia|].
  destruct (l !! Z.to_nat i) as [x|] eqn:Hx; [eauto|].
  apply lookup_ge_None in Hx. lia.
Qed.

(** ** The entry map *)

Section EntryMap.
Context {V : Type}.
Implicit Types (d : list (Z * V)) (k : Z) (v : V).

Lemma odict_keys_set k v d :
  odict_keys (odict_set k v d)
  = if decide (k ∈ odict_keys d) then odict_keys d else odict_keys d ++ [k].
Proof.
  unfold odict_keys. induction d as [|[k' v'] d IH].
  - by destruct (decide (k ∈ [].*1)) as [?%not_elem_of_nil|].
  - cbn [odict_set fmap list_fmap fst].
    destruct (decide (k' = k)) as [->|Hne]; cbn [fmap list_fmap fst].
    + rewrite decide_True; [done|]. left.
    + rewrite IH. destruct (decide (k ∈ d.*1)) as [Hin|Hnin].
      * rewrite decide_True; [done|]. by right.
      * rewrite decide_False; [done|]. rewrite elem_of_cons.
        intros [?|?]; congruence.
Qed.

Lemma odict_keys_set_NoDup k v d :
  NoDup (odict_keys d) → NoDup (odict_keys (odict_set k v d)).
Proof.
  intros Hd. rewrite odict_keys_set. case_decide; [done|].
  apply NoDup_app. split_and!; [done| |apply NoDup_singleton].
  intros x Hx ->%list_elem_of_singleton. done.
Qed.

(** Indexing by one of the dict's own keys never raises. *)
Lemma odict_getitem_key d k :
  k ∈ odict_keys d → ∃ v, odict_getitem d k = Ok v.
Proof.
  unfold odict_keys. induction d as [|[k' v'] d IH]; simpl.
  - by intros ?%not_elem_of_nil.
  - intros Hin. destruct (decide (k' = k)) as [->|Hne]; [eauto|].
    apply IH. apply elem_of_cons in Hin as [->|]; done.
Qed.
End EntryMap.

Lemma build_entry_map_keys (results : list Standing.t) :
  NoDup (odict_keys (build_entry_map results))
  ∧ ∀ k, k ∈ odict_keys (build_entry_map results)
         ↔ k ∈ Standing.entry <$> results.
Proof.
  unfold build_entry_map.
  induction results as [|r rs [IH1 IH2]] using rev_ind.
  - split; [constructor|]. intros k. simpl. done.
  - rewrite foldl_snoc. split; [by apply odict_keys_set_NoDup|].
    intros k. rewrite odict_keys_set, fmap_app. simpl.
    case_decide as Hin; rewrite !elem_of_app, ?list_elem_of_singleton, IH2.
    + apply IH2 in Hin. split; [by left | by intros [?| ->]].
    + done.
Qed.

(** ** The chip scan *)

Lemma last_filter_snoc {A : Type} (P : A → Prop) `{!∀ x, Decision (P x)}
    (l : list A) (x : A) :
  last (filter P (l ++ [x]))
  = if decide (P x) then Some x else last (filter P l).
Proof.
  rewrite filter_app, filter_cons, filter_nil.
  destruct (decide (P x)); [apply last_snoc | by rewrite app_nil_r].
Qed.

Lemma last_activation_snoc name chips c :
  last_activation name (chips ++ [c])
  = if decide (Chip.name c = name) then Some (Chip.event c)
    else last_activation name chips.
Proof.
  unfold last_activation. rewrite last_filter_snoc. by case_decide.
Qed.

Lemma last_wildcard_snoc b chips c :
  last_wildcard b (chips ++ [c])
  = if decide (Chip.name c = "wildcard"
               ∧ bool_decide (Chip.event c ≤ 20) = b)
    then Some (Chip.event c) else last_wildcard b chips.
Proof.
  unfold last_wildcard. rewrite last_filter_snoc. by case_decide.
Qed.

(** Case analysis on the [if]/[elif] chain of [chip_step]. *)
Ltac chip_cases c :=
  unfold chip_step;
  destruct (String.eqb_spec (Chip.name c) "wildcard") as [?|?];
  [ destruct (Z.leb_spec (Chip.event c) 20)
  | destruct (String.eqb_spec (Chip.name c) "freehit") as [?|?];
    [ | destruct (String.eqb_spec (Chip.name c) "3xc") as [?|?];
        [ | destruct (String.eqb_spec (Chip.name c) "bboost") as [?|?] ] ] ].

(** Side conditions of that case analysis. *)
Ltac chip_side :=
  repeat match goal with
         | H : _ ∧ _ |- _ => destruct H
         | H : bool_decide _ = true |- _ => apply bool_decide_eq_true in H
         | H : bool_decide _ = false |- _ => apply bool_decide_eq_false in H
         end;
  try done; try congruence; try lia;
  try (exfalso;
       match goal with
       | H : ¬ (_ ∧ _) |- _ =>
           apply H; split; [done|];
           first [apply bool_decide_eq_true | apply bool_decide_eq_false]; lia
       end).

Lemma chip_scan d chips :
  scanned d chips (foldl chip_step (d, None, None) chips).
Proof.
  induction chips as [|c chips IH] using rev_ind; [by constructor|].
  rewrite foldl_snoc.
  destruct (foldl chip_step (d, None, None) chips) as [[d' fh] tc].
  destruct IH as [H1 H2 H3 H4 H5 H6 H7 H8 H9 H10 H11]. simpl in *.
  chip_cases c; constructor; simpl;
    rewrite ?last_activation_snoc, ?last_wildcard_snoc;
    repeat case_decide; chip_side.
Qed.

(** ** Wildcard classification *)

(** C4: a wildcard activation at gameweek 20 or before is written to
    'Wildcard 1', one at gameweek 21 or later to 'Wildcard 2'; the other
    wildcard field keeps its value. *)
Theorem wildcard_slot_by_threshold (d : ChipRow.t) (fh tc : option Z)
    (c : Chip.t) :
  Chip.name c = "wildcard" →
  let d' := (chip_step (d, fh, tc) c).1.1 in
  (Chip.event c ≤ 20 →
     ChipRow.wildcard_1 d' = CInt (Chip.event c)
     ∧ ChipRow.wildcard_2 d' = ChipRow.wildcard_2 d)
  ∧ (21 ≤ Chip.event c →
     ChipRow.wildcard_2 d' = CInt (Chip.event c)
     ∧ ChipRow.wildcard_1 d' = ChipRow.wildcard_1 d).
Proof.
  intros Hname d'. subst d'. chip_cases c; simpl; [| |done..].
  - split; [done|lia].
  - split; [lia|done].
Qed.

(** The boundary of C4: gameweek 20 goes to 'Wildcard 1'. *)
Lemma wildcard_slot_by_threshold_witness :
  ChipRow.wildcard_1
    (chip_step (chip_dict_init {| manager_name := "Bob";
                                  team_name := "Beta FC" |}, None, None)
               (Demo.chip "wildcard" 20)).1.1 = CInt 20.
Proof.
  refine (proj1 (proj1 (wildcard_slot_by_threshold _ None None
                          (Demo.chip "wildcard" 20) eq_refl) _)).
  simpl. lia.
Defined.

(** The other side of the boundary: gameweek 21 goes to 'Wildcard 2'. *)
Example wildcard_gw21 (d : ChipRow.t) :
  ChipRow.wildcard_2 (chip_step (d, None, None) (Demo.chip "wildcard" 21)).1.1
  = CInt 21.
Proof. reflexivity. Qed.

(** C5 as stated fails at the threshold: an activation exactly at
    gameweek 20 is not written to 'Wildcard 2', which keeps the
    sentinel, but to 'Wildcard 1'. *)
Lemma wildcard_gw20_not_slot_2 :
  let d' :=
    (chip_step (chip_dict_init {| manager_name := "Bob";
                                  team_name := "Beta FC" |}, None, None)
               {| Chip.name := "wildcard"; Chip.event := 20 |}).1.1 in
  ChipRow.wildcard_2 d' ≠ CInt 20
  ∧ ChipRow.wildcard_2 d' = sentinel
  ∧ ChipRow.wildcard_1 d' = CInt 20.
Proof. split_and!; [discriminate|reflexivity..]. Qed.

(** C5, amended: a wildcard activation strictly before gameweek 20 and
    one exactly at gameweek 20 are both classified 'Wildcard 1'; only an
    activation strictly after gameweek 20 is classified 'Wildcard 2'. *)
Theorem wildcard_threshold_inclusive (d : ChipRow.t) (fh tc : option Z)
    (c : Chip.t) :
  Chip.name c = "wildcard" →
  let d' := (chip_step (d, fh, tc) c).1.1 in
  (Chip.event c < 20 →
     ChipRow.wildcard_1 d' = CInt (Chip.event c)
     ∧ ChipRow.wildcard_2 d' = ChipRow.wildcard_2 d)
  ∧ (Chip.event c = 20 →
     ChipRow.wildcard_1 d' = CInt 20
     ∧ ChipRow.wildcard_2 d' = ChipRow.wildcard_2 d)
  ∧ (20 < Chip.event c →
     ChipRow.wildcard_2 d' = CInt (Chip.event c)
     ∧ ChipRow.wildcard_1 d' = ChipRow.wildcard_1 d).
Proof.
  intros Hname d'. subst d'. chip_cases c; simpl; [| |done..].
  - split_and!; [done| |lia]. by intros ->.
  - split_and!; [lia..|done].
Qed.

Lemma wildcard_threshold_inclusive_witness :
  ChipRow.wildcard_2
    (chip_step (chip_dict_init {| manager_name := "Bob";
                                  team_name := "Beta FC" |}, None, Some 4)
               (Demo.chip "wildcard" 27)).1.1 = CInt 27.
Proof.
  refine (proj1 (proj2 (proj2 (wildcard_threshold_inclusive _ None (Some 4)
                                 (Demo.chip "wildcard" 27) eq_refl)) _)).
  simpl. lia.
Defined.

(** ** The chip aggregator *)

Section ChipLoop.
Variable w : World.
Variable em : list (Z * entry_info).
Variable cat : catalog.

Lemma scan_history_weeks resp d :
  (scan_history resp d).1.2 = stored_week "freehit" resp
  ∧ (scan_history resp d).2 = stored_week "3xc" resp.
Proof.
  unfold scan_history, stored_week.
  destruct (status_code resp =? 200); [|done].
  by destruct (chip_scan d (default [] (History.chips (json resp)))).
Qed.

Lemma scan_history_failed resp d :
  status_code resp ≠ 200 → scan_history resp d = (d, None, None).
Proof.
  intros H. unfold scan_history.
  by destruct (Z.eqb_spec (status_code resp) 200).
Qed.

(** The secondary fetch only touches the two triple-captain columns
    that the scan leaves alone. *)
Lemma resolve_triple_captain_fields e tc d d' :
  resolve_triple_captain w cat e tc d = Ok d' →
  ChipRow.manager_name d' = ChipRow.manager_name d
  ∧ ChipRow.team_name d' = ChipRow.team_name d
  ∧ ChipRow.wildcard_1 d' = ChipRow.wildcard_1 d
  ∧ ChipRow.wildcard_2 d' = ChipRow.wildcard_2 d
  ∧ ChipRow.free_hit d' = ChipRow.free_hit d
  ∧ ChipRow.bench_boost d' = ChipRow.bench_boost d
  ∧ ChipRow.triple_captain d' = ChipRow.triple_captain d.
Proof.
  unfold resolve_triple_captain.
  repeat match goal with
         | |- context [match ?x with _ => _ end] => destruct x
         end; intros [= <-]; done.
Qed.

(** One iteration: a row is appended and both side tables get the
    entry's key. *)
Lemma chip_entry_inv e st st' :
  chip_entry w em cat e st = Ok st' →
  ∃ row, chip_record w em cat e row
    ∧ chip_data st' = chip_data st ++ [row]
    ∧ free_hit_by_entry st'
      = <[e := stored_week "freehit" (get_history w e)]> (free_hit_by_entry st)
    ∧ triple_captain_week_by_entry st'
      = <[e := stored_week "3xc" (get_history w e)]>
          (triple_captain_week_by_entry st).
Proof.
  unfold chip_record, chip_entry.
  destruct (odict_getitem em e) as [info|]; simpl; [|done].
  destruct (scan_history_weeks (get_history w e) (chip_dict_init info))
    as [Hfh Htc].
  destruct (scan_history _ _) as [[d fh] tc]. simpl in *. subst fh tc.
  destruct (resolve_triple_captain _ _ _ _ _) as [row|]; simpl; [|done].
  intros [= <-]. exists row. simpl. split_and!; [|done..]. eauto.
Qed.

(** The row of an entry, column by column: the five gameweek columns
    hold the last activation that writes them, read off the history. *)
Lemma chip_record_fields e row :
  chip_record w em cat e row →
  let chips :=
    if status_code (get_history w e) =? 200
    then default [] (History.chips (json (get_history w e))) else [] in
  ∃ info,
    odict_getitem em e = Ok info
    ∧ ChipRow.manager_name row = manager_name info
    ∧ ChipRow.team_name row = team_name info
    ∧ ChipRow.wildcard_1 row
      = from_option CInt sentinel (last_wildcard true chips)
    ∧ ChipRow.wildcard_2 row
      = from_option CInt sentinel (last_wildcard false chips)
    ∧ ChipRow.free_hit row
      = from_option CInt sentinel (last_activation "freehit" chips)
    ∧ ChipRow.bench_boost row
      = from_option CInt sentinel (last_activation "bboost" chips)
    ∧ ChipRow.triple_captain row
      = from_option CInt sentinel (last_activation "3xc" chips).
Proof.
  intros (st & Hst & Hdata) chips. unfold chip_entry in Hst.
  destruct (odict_getitem em e) as [info|]; simpl in Hst; [|done].
  exists info. split; [done|].
  assert (scanned (chip_dict_init info) chips
            (scan_history (get_history w e) (chip_dict_init info))) as Hscan.
  { unfold scan_history, chips.
    destruct (status_code (get_history w e) =? 200);
      [apply chip_scan|by constructor]. }
  destruct (scan_history _ _) as [[d fh] tc].
  destruct (resolve_triple_captain _ _ _ _ _) as [d'|] eqn:Hres;
    simpl in Hst; [|done].
  injection Hst as <-. simpl in Hdata. injection Hdata as <-.
  apply resolve_triple_captain_fields in Hres
    as (-> & -> & -> & -> & -> & -> & ->).
  destruct Hscan as [_ _ H3 H4 H5 H6 H7 H8 H9 _ _]. simpl in *.
  by rewrite H3, H4, H5, H6, H7, H8, H9.
Qed.

Lemma chip_loop_inv l st :
  chip_loop w em cat l chip_state_init = Ok st →
  Forall2 (chip_record w em cat) l (chip_data st)
  ∧ (∀ e, free_hit_by_entry st !! e
          = if decide (e ∈ l)
            then Some (stored_week "freehit" (get_history w e)) else None)
  ∧ (∀ e, triple_captain_week_by_entry st !! e
          = if decide (e ∈ l)
            then Some (stored_week "3xc" (get_history w e)) else None).
Proof.
  unfold chip_loop. intros Hl. pattern l, st.
  eapply for_each_ind; [| |exact Hl]; simpl.
  - split_and!; [apply List.Forall2_nil|done..].
  - intros done e st1 st2 (IH1 & IH2 & IH3)
      (row & Hrow & Hdata & Hfh & Htc)%chip_entry_inv.
    rewrite Hdata, Hfh, Htc. split_and!.
    + apply Forall2_app; [done|]. by repeat constructor.
    + intros e'. rewrite lookup_insert, IH2.
      destruct (decide (e = e')) as [->|Hne].
      * rewrite decide_True; [done|]. apply elem_of_app. right. left.
      * destruct (decide (e' ∈ done)) as [Hin|Hnin].
        -- rewrite decide_True; [done|]. apply elem_of_app. by left.
        -- rewrite decide_False; [done|].
           rewrite elem_of_app, list_elem_of_singleton. intros [?|?]; done.
    + intros e'. rewrite lookup_insert, IH3.
      destruct (decide (e = e')) as [->|Hne].
      * rewrite decide_True; [done|]. apply elem_of_app. right. left.
      * destruct (decide (e' ∈ done)) as [Hin|Hnin].
        -- rewrite decide_True; [done|]. apply elem_of_app. by left.
        -- rewrite decide_False; [done|].
           rewrite elem_of_app, list_elem_of_singleton. intros [?|?]; done.
Qed.
End ChipLoop.

(** ** The run *)

(** The globals of a completed run, stage by stage. *)
Lemma run_inv (w : World) (g : globals) :
  run w = Ok g →
  entry_map g = build_entry_map (get_standings w)
  ∧ entries g = odict_keys (entry_map g)
  ∧ build_catalog (get_bootstrap w) = Ok (cat g)
  ∧ chip_loop w (entry_map g) (cat g) (entries g) chip_state_init
    = Ok (chips g)
  ∧ captaincy_loop w (entry_map g) (cat g) (chips g) (entries g) []
    = Ok (captaincy_data g)
  ∧ transfers_loop w (entry_map g) (cat g) (chips g) (entries g) []
    = Ok (all_transfers g)
  ∧ df_transfers g = sort_transfers (all_transfers g).
Proof.
  unfold run.
  destruct (build_catalog _) as [c|]; simpl; [|done].
  destruct (chip_loop _ _ _ _ _) as [ch|] eqn:Hch; simpl; [|done].
  destruct (captaincy_loop _ _ _ _ _ _) as [cd|] eqn:Hcd; simpl; [|done].
  destruct (transfers_loop _ _ _ _ _ _) as [tr|] eqn:Htr; simpl; [|done].
  by intros [= <-].
Qed.

(** The league entries are pairwise distinct and all have a name. *)
Lemma run_entries (w : World) (g : globals) :
  run w = Ok g →
  NoDup (entries g)
  ∧ ∀ e, e ∈ entries g → ∃ info, odict_getitem (entry_map g) e = Ok info.
Proof.
  intros (Hem & He & _)%run_inv. rewrite He, Hem. split.
  - apply build_entry_map_keys.
  - intros e. apply odict_getitem_key.
Qed.

Lemma demo_run : ∃ g, run Demo.world = Ok g.
Proof. vm_compute. eexists. reflexivity. Qed.

(** ** History failures *)

(** C7: when the season-history fetch of an entry does not return
    status 200, the iteration for that entry raises nothing, appends
    exactly one row whose seven chip fields are all the sentinel, and
    the loop goes on with the next entry; in a completed run the row at
    the entry's position is such a row. *)
Theorem history_failure_sentinel_row (w : World) (e : Z) :
  status_code (get_history w e) ≠ 200 →
  (∀ em cat info st,
     odict_getitem em e = Ok info →
     let st' :=
       {| chip_data := chip_data st ++ [chip_dict_init info];
          free_hit_by_entry := <[e := None]> (free_hit_by_entry st);
          triple_captain_week_by_entry :=
            <[e := None]> (triple_captain_week_by_entry st) |} in
     ChipRow.chip_fields (chip_dict_init info) = replicate 7 sentinel
     ∧ chip_entry w em cat e st = Ok st'
     ∧ ∀ before after st0,
         chip_loop w em cat before st0 = Ok st →
         chip_loop w em cat (before ++ e :: after) st0
         = chip_loop w em cat after st')
  ∧ (∀ g i,
       run w = Ok g →
       entries g !! i = Some e →
       NoDup (entries g)
       ∧ length (df_chips g) = length (entries g)
       ∧ ∃ row, df_chips g !! i = Some row
                ∧ ChipRow.chip_fields row = replicate 7 sentinel).
Proof.
  intros Hfail.
  assert (∀ em cat info st,
            odict_getitem em e = Ok info →
            chip_entry w em cat e st
            = Ok {| chip_data := chip_data st ++ [chip_dict_init info];
                    free_hit_by_entry := <[e := None]> (free_hit_by_entry st);
                    triple_captain_week_by_entry :=
                      <[e := None]> (triple_captain_week_by_entry st) |})
    as Hstep.
  { intros em cat info st Hinfo. unfold chip_entry. rewrite Hinfo. simpl.
    by rewrite scan_history_failed. }
  split.
  - intros em cat info st Hinfo st'. split_and!; [done|by apply Hstep|].
    intros before after st0 Hbefore. unfold chip_loop in *.
    rewrite for_each_app, Hbefore. simpl. by rewrite (Hstep _ _ info).
  - intros g i Hrun Hi.
    destruct (run_entries w g Hrun) as [Hnd Hnames].
    destruct (run_inv w g Hrun) as (_ & _ & _ & Hch & _).
    apply chip_loop_inv in Hch as [Hrows _].
    split_and!; [done|symmetry; by eapply Forall2_length|].
    destruct (Forall2_lookup_l _ _ _ _ _ Hrows Hi) as (row & Hrow & Hrec).
    exists row. split; [done|].
    destruct (Hnames e) as [info Hinfo]; [by eapply list_elem_of_lookup_2|].
    destruct Hrec as (st & Hst & Hdata).
    rewrite (Hstep _ _ info) in Hst by done. injection Hst as <-.
    simpl in Hdata. by injection Hdata as <-.
Qed.

(** Entry 300 of the demo league: its history fetch returns 503. *)
Lemma history_failure_sentinel_row_witness :
  ∃ g, run Demo.world = Ok g
       ∧ ∃ row, df_chips g !! 2%nat = Some row
                ∧ ChipRow.chip_fields row = replicate 7 sentinel.
Proof.
  eexists. split; [vm_compute; reflexivity|].
  refine (proj2 (proj2 (proj2 (history_failure_sentinel_row Demo.world 300 _)
                          _ 2%nat _ _))).
  - vm_compute. discriminate.
  - vm_compute. reflexivity.
  - vm_compute. reflexivity.
Defined.

(** ** The side tables *)

Lemma last_activation_None name chips :
  last_activation name chips = None
  ↔ Forall (λ c, Chip.name c ≠ name) chips.
Proof.
  unfold last_activation. rewrite fmap_None, last_None, Forall_forall.
  split.
  - intros Hnil c Hc Hname.
    assert (c ∈ filter (λ c, Chip.name c = name) chips) as Hin
      by by apply list_elem_of_filter.
    rewrite Hnil in Hin. by apply not_elem_of_nil in Hin.
  - intros Hall.
    destruct (filter (λ c, Chip.name c = name) chips) as [|c l] eqn:Hf;
      [done|].
    assert (c ∈ filter (λ c, Chip.name c = name) chips) as Hin
      by (rewrite Hf; left).
    apply list_elem_of_filter in Hin as [Hname Hc]. by destruct (Hall c Hc).
Qed.

(** No week is stored exactly when the fetch failed or the chip is not
    in the list. *)
Lemma stored_week_None name resp :
  stored_week name resp = None
  ↔ status_code resp ≠ 200
    ∨ Forall (λ c, Chip.name c ≠ name)
             (default [] (History.chips (json resp))).
Proof.
  unfold stored_week.
  destruct (Z.eqb_spec (status_code resp) 200) as [Heq|Hne].
  - rewrite last_activation_None. split; [by right|]. by intros [?|?].
  - split; [by left|done].
Qed.

Lemma flag_cases (gw : Z) (d : gmap Z (option Z)) (e : Z) :
  (flag gw d e = "Yes" ∧ d !! e = Some (Some gw))
  ∨ (flag gw d e = "No" ∧ d !! e ≠ Some (Some gw)).
Proof.
  unfold flag, dict_get, py_eq.
  destruct (d !! e) as [[z|]|]; simpl; [|right; done..].
  destruct (Z.eqb_spec gw z) as [->|Hne]; [by left|].
  right. split; [done|]. congruence.
Qed.

(** C9: when the chip loop has completed, each side table has exactly
    the league entries as keys; the value stored for an entry is [None]
    when its history fetch failed or lists no activation of the chip;
    the flag of the other two aggregators is defined for every entry
    and is "No" wherever no gameweek is stored. *)
Theorem side_tables_cover_entries (w : World) (em : list (Z * entry_info))
    (cat : catalog) (l : list Z) (st : chip_state) :
  chip_loop w em cat l chip_state_init = Ok st →
  dom (free_hit_by_entry st) = list_to_set l
  ∧ dom (triple_captain_week_by_entry st) = list_to_set l
  ∧ (∀ e, e ∈ l →
       free_hit_by_entry st !! e
       = Some (stored_week "freehit" (get_history w e))
       ∧ triple_captain_week_by_entry st !! e
         = Some (stored_week "3xc" (get_history w e)))
  ∧ (∀ e, e ∈ l →
       status_code (get_history w e) ≠ 200
       ∨ Forall (λ c, Chip.name c ≠ "freehit")
                (default [] (History.chips (json (get_history w e)))) →
       free_hit_by_entry st !! e = Some None)
  ∧ (∀ e, e ∈ l →
       status_code (get_history w e) ≠ 200
       ∨ Forall (λ c, Chip.name c ≠ "3xc")
                (default [] (History.chips (json (get_history w e)))) →
       triple_captain_week_by_entry st !! e = Some None)
  ∧ (∀ e gw,
       (dict_get (free_hit_by_entry st) e = None →
        flag gw (free_hit_by_entry st) e = "No")
       ∧ (dict_get (triple_captain_week_by_entry st) e = None →
          flag gw (triple_captain_week_by_entry st) e = "No")).
Proof.
  intros (_ & Hfh & Htc)%chip_loop_inv.
  assert (∀ e, e ∈ l →
            free_hit_by_entry st !! e
            = Some (stored_week "freehit" (get_history w e))
            ∧ triple_captain_week_by_entry st !! e
              = Some (stored_week "3xc" (get_history w e))) as Hin.
  { intros e He. by rewrite Hfh, Htc, !decide_True. }
  split_and!.
  - apply set_eq. intros e. rewrite elem_of_dom, elem_of_list_to_set, Hfh.
    case_decide; split; try done; by intros [? ?].
  - apply set_eq. intros e. rewrite elem_of_dom, elem_of_list_to_set, Htc.
    case_decide; split; try done; by intros [? ?].
  - done.
  - intros e He Hnone%stored_week_None.
    destruct (Hin e He) as [-> _]. by rewrite Hnone.
  - intros e He Hnone%stored_week_None.
    destruct (Hin e He) as [_ ->]. by rewrite Hnone.
  - intros e gw. unfold flag. split; by intros ->.
Qed.

Lemma side_tables_cover_entries_witness :
  ∃ st, chip_loop Demo.world (build_entry_map Demo.standings)
          {| id_to_name := ∅; id_to_team := ∅; id_to_position := ∅ |}
          [100; 200; 300] chip_state_init = Ok st
        ∧ dom (free_hit_by_entry st) = list_to_set [100; 200; 300].
Proof.
  eexists. split; [vm_compute; reflexivity|].
  refine (proj1 (side_tables_cover_entries Demo.world
                   (build_entry_map Demo.standings)
                   {| id_to_name := ∅; id_to_team := ∅;
                      id_to_position := ∅ |}
                   [100; 200; 300] _ _)).
  vm_compute. reflexivity.
Defined.

(** ** The captaincy aggregator *)

(** The rows of a table built by appending iterations: those it
    started with and those some iteration appends. *)
Lemma for_each_elem_of {A R : Type} (body : A → list R → result (list R))
    (l : list A) (acc res : list R) :
  appending body →
  for_each body l acc = Ok res →
  ∀ r, r ∈ res
       ↔ r ∈ acc ∨ ∃ x rows, x ∈ l ∧ body x [] = Ok rows ∧ r ∈ rows.
Proof.
  intros Hb. revert acc res.
  induction l as [|x l IH]; intros acc res; simpl.
  - intros [= <-] r. split; [by left|].
    intros [?|(x & rows & []%not_elem_of_nil & _)]. done.
  - rewrite (Hb x acc).
    destruct (body x []) as [rows|] eqn:Hx; simpl; [|done].
    intros Hres r. rewrite (IH _ _ Hres r), elem_of_app. split.
    + intros [[?|?]|(y & rows' & Hy & Hbody & Hr)]; [by left| |].
      * right. exists x, rows. split_and!; [left|done..].
      * right. exists y, rows'. split_and!; [by right|done..].
    + intros [?|(y & rows' & Hy & Hbody & Hr)]; [by left; left|].
      apply elem_of_cons in Hy as [->|Hy].
      * left. right. congruence.
      * right. eauto.
Qed.

Lemma elem_of_gameweeks (gw : Z) : gw ∈ gameweeks ↔ 1 ≤ gw ≤ 38.
Proof. unfold gameweeks. rewrite elem_of_seqZ. lia. Qed.

Section Captaincy.
Variable w : World.
Variable em : list (Z * entry_info).
Variable cat : catalog.
Variable chips : chip_state.

(** What an iteration of the inner loop appends: nothing, or the one
    row of the entry's captain. *)
Lemma captaincy_entry_cases gw ppm e data :
  captaincy_entry w em cat chips gw ppm e data = Ok data
  ∨ (∃ info captain_id,
       status_code (get_picks w e gw) = 200
       ∧ truthy (captain_of (default [] (Picks.picks (json (get_picks w e gw)))))
         = Some captain_id
       ∧ odict_getitem em e = Ok info
       ∧ captaincy_entry w em cat chips gw ppm e data
         = Ok (data ++
               [{| CaptaincyRow.manager_name := manager_name info;
                   CaptaincyRow.team_name := team_name info;
                   CaptaincyRow.gameweek := gw;
                   CaptaincyRow.captain :=
                     dict_get_cell CStr (id_to_name cat) captain_id;
                   CaptaincyRow.captain_points :=
                     dict_get_cell CInt ppm captain_id;
                   CaptaincyRow.triple_captain_used :=
                     flag gw (triple_captain_week_by_entry chips) e |}]))
  ∨ (∃ x, captaincy_entry w em cat chips gw ppm e data = Raise x
          ∧ odict_getitem em e = Raise x).
Proof.
  unfold captaincy_entry.
  destruct (Z.eqb_spec (status_code (get_picks w e gw)) 200) as [H200|Hne];
    simpl; [|by left].
  destruct (truthy _) as [captain_id|] eqn:Hcap; [|by left].
  destruct (odict_getitem em e) as [info|x] eqn:Hinfo; simpl.
  - right. left. exists info, captain_id. done.
  - right. right. by exists x.
Qed.

Lemma captaincy_entry_appending gw ppm :
  appending (captaincy_entry w em cat chips gw ppm).
Proof.
  intros e data. unfold captaincy_entry.
  destruct (negb (status_code (get_picks w e gw) =? 200)); simpl;
    [by rewrite app_nil_r|].
  destruct (truthy _); simpl; [|by rewrite app_nil_r].
  by destruct (odict_getitem em e).
Qed.

Lemma captaincy_gw_appending entries :
  appending (captaincy_gw w em cat chips entries).
Proof.
  intros gw data. unfold captaincy_gw.
  destruct (negb (status_code (get_live w gw) =? 200)); simpl.
  - by rewrite app_nil_r.
  - apply for_each_appending, captaincy_entry_appending.
Qed.
(** A non-empty result of one iteration on the empty table is one row. *)
Lemma captaincy_entry_singleton gw ppm e rows row :
  captaincy_entry w em cat chips gw ppm e [] = Ok rows →
  row ∈ rows → rows = [row].
Proof.
  intros Hrows Hrow.
  destruct (captaincy_entry_cases gw ppm e [])
    as [H|[(info & c & _ & _ & _ & H)|(x & H & _)]];
    rewrite H in Hrows; [| |done].
  - injection Hrows as <-. by apply not_elem_of_nil in Hrow.
  - injection Hrows as <-. simpl in *.
    by apply list_elem_of_singleton in Hrow as ->.
Qed.

(** The rows of the captaincy table, each traced to its entry and
    gameweek. *)
Lemma captaincy_loop_rows entries data :
  captaincy_loop w em cat chips entries [] = Ok data →
  ∀ row, row ∈ data
         ↔ ∃ e gw, e ∈ entries ∧ gw ∈ gameweeks
                   ∧ status_code (get_live w gw) = 200
                   ∧ captaincy_entry w em cat chips gw
                       (points_map (json (get_live w gw))) e [] = Ok [row].
Proof.
  unfold captaincy_loop. intros Hloop row.
  rewrite (for_each_elem_of _ _ _ _ (captaincy_gw_appending entries) Hloop).
  split.
  - intros [[]%not_elem_of_nil|(gw & rows & Hgw & Hrows & Hrow)].
    unfold captaincy_gw in Hrows.
    destruct (Z.eqb_spec (status_code (get_live w gw)) 200) as [H200|Hne];
      simpl in Hrows.
    + apply (for_each_elem_of _ _ _ _ (captaincy_entry_appending _ _))
        with (r := row) in Hrows.
      apply Hrows in Hrow as [[]%not_elem_of_nil|(e & rows' & He & Hr & Hin)].
      exists e, gw. split_and!; [done..|].
      by rewrite Hr, (captaincy_entry_singleton _ _ _ _ _ Hr Hin).
    + injection Hrows as <-. by apply not_elem_of_nil in Hrow.
  - intros (e & gw & He & Hgw & H200 & Hrow). right.
    destruct (for_each_each_ok _ _ _ _ gw (captaincy_gw_appending entries)
                Hloop Hgw) as [rows Hrows].
    exists gw, rows. split_and!; [done..|].
    unfold captaincy_gw in Hrows. rewrite H200 in Hrows. simpl in Hrows.
    apply (for_each_elem_of _ _ _ _ (captaincy_entry_appending _ _) Hrows).
    right. exists e, [row]. split_and!; [done..|left].
Qed.
End Captaincy.

(** C1: in a completed run the captaincy table holds exactly the
    captaincy records of the league entries over gameweeks 1..38; the
    week stored for an entry is the one the chip loop read from its
    history; and the record of entry [e] in gameweek [gw] has 'Triple
    Captain Used' equal to "Yes" exactly when [gw] is the stored
    triple-captain gameweek of [e], and "No" in every other case (a
    different week stored, or none). *)
Theorem triple_captain_flag_correct (w : World) (g : globals) :
  run w = Ok g →
  (∀ row, row ∈ df_captaincy g
          ↔ ∃ e gw, e ∈ entries g ∧ gw ∈ gameweeks
                    ∧ captaincy_record w g e gw row)
  ∧ (∀ e, e ∈ entries g →
       triple_captain_week_by_entry (chips g) !! e
       = Some (stored_week "3xc" (get_history w e)))
  ∧ ∀ e gw row,
      captaincy_record w g e gw row →
      CaptaincyRow.gameweek row = gw
      ∧ (CaptaincyRow.triple_captain_used row = "Yes"
         ↔ triple_captain_week_by_entry (chips g) !! e = Some (Some gw))
      ∧ (triple_captain_week_by_entry (chips g) !! e ≠ Some (Some gw)
         → CaptaincyRow.triple_captain_used row = "No").
Proof.
  intros Hrun.
  destruct (run_inv w g Hrun) as (_ & _ & _ & Hchips & Hcap & _).
  split_and!.
  - intros row. unfold df_captaincy, captaincy_record.
    rewrite (captaincy_loop_rows _ _ _ _ _ _ Hcap row).
    split; intros (e & gw & ?); exists e, gw; tauto.
  - intros e He.
    apply chip_loop_inv in Hchips as (_ & _ & ->). by rewrite decide_True.
  - intros e gw row [_ Hrow].
    destruct (captaincy_entry_cases w (entry_map g) (cat g) (chips g) gw
                (points_map (json (get_live w gw))) e [])
      as [H|[(info & c & _ & _ & _ & H)|(x & H & _)]];
      rewrite H in Hrow; [done| |done].
    injection Hrow as <-. simpl.
    destruct (flag_cases gw (triple_captain_week_by_entry (chips g)) e)
      as [[-> Hs]|[-> Hs]]; split_and!; try done.
Qed.

Lemma triple_captain_flag_correct_witness :
  ∃ g, run Demo.world = Ok g
       ∧ triple_captain_week_by_entry (chips g) !! 100 = Some (Some 15).
Proof.
  eexists. split; [vm_compute; reflexivity|].
  refine (proj1 (proj2 (triple_captain_flag_correct Demo.world _ _)) 100 _).
  - vm_compute. reflexivity.
  - apply list_elem_of_In. vm_compute. tauto.
Defined.


Lemma captain_of_None (picks : list Pick.t) :
  captain_of picks = None ↔ Forall (λ p, Pick.is_captain p = false) picks.
Proof.
  unfold captain_of. rewrite fmap_None. induction picks as [|p picks IH].
  - split; [constructor|done].
  - simpl. rewrite Forall_cons. destruct (Pick.is_captain p).
    + split; [done|]. by intros [? _].
    + rewrite IH. split; [done|]. by intros [_ ?].
Qed.

(** The first captain-flagged pick is the captain. *)
Lemma captain_of_first (before after : list Pick.t) (p : Pick.t) :
  Forall (λ q, Pick.is_captain q = false) before →
  Pick.is_captain p = true →
  captain_of (before ++ p :: after) = Some (Pick.element p).
Proof.
  intros Hb Hp. unfold captain_of. induction Hb as [|q before Hq _ IH]; simpl.
  - by rewrite Hp.
  - by rewrite Hq.
Qed.

(** C8: a gameweek whose live scores are unavailable contributes no
    captaincy record for any entry; an entry whose picks are unavailable
    or flag no captain is skipped alone, the loop over the other entries
    of the gameweek running as if the entry were not listed. *)
Theorem captaincy_skips (w : World) (em : list (Z * entry_info))
    (cat : catalog) (chips : chip_state) :
  (∀ entries gw data,
     status_code (get_live w gw) ≠ 200 →
     captaincy_gw w em cat chips entries gw data = Ok data)
  ∧ (∀ entries data,
       captaincy_loop w em cat chips entries [] = Ok data →
       ∀ row, row ∈ data →
              status_code (get_live w (CaptaincyRow.gameweek row)) = 200)
  ∧ (∀ gw ppm e,
       status_code (get_picks w e gw) ≠ 200
       ∨ Forall (λ p, Pick.is_captain p = false)
                (default [] (Picks.picks (json (get_picks w e gw)))) →
       (∀ data, captaincy_entry w em cat chips gw ppm e data = Ok data)
       ∧ ∀ before after data,
           for_each (captaincy_entry w em cat chips gw ppm)
                    (before ++ e :: after) data
           = for_each (captaincy_entry w em cat chips gw ppm)
                      (before ++ after) data).
Proof.
  split_and!.
  - intros entries gw data Hne. unfold captaincy_gw.
    by destruct (Z.eqb_spec (status_code (get_live w gw)) 200).
  - intros entries data Hloop row
      (e & gw & _ & _ & H200 & Hrow)%(captaincy_loop_rows _ _ _ _ _ _ Hloop).
    destruct (captaincy_entry_cases w em cat chips gw
                (points_map (json (get_live w gw))) e [])
      as [H|[(info & c & _ & _ & _ & H)|(x & H & _)]];
      rewrite H in Hrow; [done| |done].
    by injection Hrow as <-.
  - intros gw ppm e Hskip.
    assert (∀ data, captaincy_entry w em cat chips gw ppm e data = Ok data)
      as Hcont.
    { intros data. unfold captaincy_entry.
      destruct (Z.eqb_spec (status_code (get_picks w e gw)) 200)
        as [H200|Hne]; simpl; [|done].
      destruct Hskip as [?|Hno%captain_of_None]; [done|]. by rewrite Hno. }
    split; [done|]. intros before after data. by apply for_each_skip.
Qed.

(** Gameweek 21 of the demo league has no live scores. *)
Lemma captaincy_skips_witness :
  captaincy_gw Demo.world (build_entry_map Demo.standings)
    {| id_to_name := ∅; id_to_team := ∅; id_to_position := ∅ |}
    chip_state_init [100; 200; 300] 21 [] = Ok [].
Proof.
  refine (proj1 (captaincy_skips Demo.world _ _ _) _ 21 [] _).
  vm_compute. discriminate.
Defined.

(** ** The sort of the transfer table *)

Lemma row_leb_le (r1 r2 : TransferRow.t) : row_leb r1 r2 = true ↔ row_le r1 r2.
Proof.
  unfold row_leb, row_le, String.le.
  rewrite orb_true_iff, andb_true_iff, Z.ltb_lt, Z.eqb_eq, Is_true_true.
  done.
Qed.

#[local] Instance row_le_total : Total row_le.
Proof.
  intros r1 r2. unfold row_le.
  destruct (Z.lt_trichotomy (TransferRow.gameweek r1)
              (TransferRow.gameweek r2)) as [?|[Heq|?]]; [by left; left| |].
  - destruct (total String.le (TransferRow.manager_name r1)
                (TransferRow.manager_name r2)).
    + left. by right.
    + right. right. by split.
  - right. by left.
Qed.

#[local] Instance row_le_trans : Transitive row_le.
Proof.
  intros r1 r2 r3. unfold row_le.
  intros [?|[? ?]] [?|[? ?]]; [left; lia..|].
  right. split; [congruence|]. by etrans.
Qed.

Lemma insert_row_perm (r : TransferRow.t) (l : list TransferRow.t) :
  insert_row r l ≡ₚ r :: l.
Proof.
  induction l as [|r' l IH]; simpl; [done|].
  destruct (row_leb r r'); [done|]. by rewrite IH, Permutation_swap.
Qed.

Lemma sort_values_perm (df : list TransferRow.t) : sort_values df ≡ₚ df.
Proof.
  unfold sort_values. induction df as [|r df IH]; simpl; [done|].
  by rewrite insert_row_perm, IH.
Qed.

Lemma insert_row_sorted (r : TransferRow.t) (l : list TransferRow.t) :
  StronglySorted row_le l → StronglySorted row_le (insert_row r l).
Proof.
  induction 1 as [|r' l Hl IH Hall]; simpl.
  - by repeat constructor.
  - destruct (row_leb r r') eqn:Hle.
    + apply row_leb_le in Hle. constructor; [by constructor|].
      constructor; [done|]. eapply Forall_impl; [exact Hall|].
      intros r'' ?. by etrans.
    + assert (row_le r' r) as Hle'.
      { destruct (total row_le r r') as [H|H]; [|done].
        apply row_leb_le in H. congruence. }
      constructor; [done|].
      rewrite insert_row_perm. by constructor.
Qed.

Lemma sort_values_sorted (df : list TransferRow.t) :
  StronglySorted row_le (sort_values df).
Proof.
  unfold sort_values. induction df as [|r df IH]; simpl; [constructor|].
  by apply insert_row_sorted.
Qed.

(** Rows with equal keys keep their relative order: the sort is stable. *)
Lemma insert_row_filter (P : TransferRow.t → Prop) `{!∀ r, Decision (P r)}
    (r : TransferRow.t) (l : list TransferRow.t) :
  (∀ r', P r → P r' → row_leb r r' = true) →
  filter P (insert_row r l) = filter P (r :: l).
Proof.
  intros Hkey. induction l as [|r' l IH]; simpl; [done|].
  destruct (row_leb r r') eqn:Hle; [done|].
  rewrite !filter_cons in *. rewrite IH.
  destruct (decide (P r)) as [Hr|]; [|done].
  destruct (decide (P r')) as [Hr'|]; [|done].
  specialize (Hkey r' Hr Hr'). congruence.
Qed.

Lemma sort_values_stable (gw : Z) (name : string)
    (df : list TransferRow.t) :
  let same_key r :=
    TransferRow.gameweek r = gw ∧ TransferRow.manager_name r = name in
  filter same_key (sort_values df) = filter same_key df.
Proof.
  intros same_key. unfold sort_values.
  induction df as [|r df IH]; simpl; [done|].
  rewrite insert_row_filter.
  - by rewrite !filter_cons, IH.
  - intros r' [Hg Hn] [Hg' Hn']. apply row_leb_le. right.
    split; [congruence|]. rewrite Hn, Hn'. done.
Qed.

Lemma strongly_sorted_lookup {A : Type} (R : relation A) (l : list A)
    (i j : nat) (x y : A) :
  StronglySorted R l → (i < j)%nat →
  l !! i = Some x → l !! j = Some y → R x y.
Proof.
  intros Hl. revert i j. induction Hl as [|z l Hl IH Hall]; intros i j Hij.
  - done.
  - destruct i as [|i], j as [|j]; simpl; try lia.
    + intros [= <-] Hy. rewrite Forall_forall in Hall.
      apply Hall. by eapply list_elem_of_lookup_2.
    + apply IH. lia.
Qed.

(** C2: the final transfer table is a rearrangement of the collected
    rows; a non-empty table went through the sort and is non-decreasing
    by gameweek and, within a gameweek, non-decreasing by manager name;
    an empty table is left as it is, no sort being performed. *)
Theorem transfers_sorted (w : World) (g : globals) :
  run w = Ok g →
  df_transfers g ≡ₚ all_transfers g
  ∧ (all_transfers g ≠ [] → df_transfers g = sort_values (all_transfers g))
  ∧ (all_transfers g = [] → df_transfers g = all_transfers g)
  ∧ ∀ i j r1 r2,
      (i < j)%nat →
      df_transfers g !! i = Some r1 →
      df_transfers g !! j = Some r2 →
      TransferRow.gameweek r1 ≤ TransferRow.gameweek r2
      ∧ (TransferRow.gameweek r1 = TransferRow.gameweek r2 →
         String.le (TransferRow.manager_name r1)
                   (TransferRow.manager_name r2)).
Proof.
  intros (_ & _ & _ & _ & _ & _ & ->)%run_inv.
  unfold sort_transfers. destruct (all_transfers g) as [|r df] eqn:Hdf.
  - split_and!; [done..|]. intros i j r1 r2 _ Hi. done.
  - split_and!; [apply sort_values_perm|done..|].
    intros i j r1 r2 Hij Hi Hj.
    pose proof (strongly_sorted_lookup row_le _ i j r1 r2
                  (sort_values_sorted (r :: df)) Hij Hi Hj) as [Hlt|[Heq Hle]].
    + split; lia.
    + split; [lia|done].
Qed.

Lemma transfers_sorted_witness :
  ∃ g, run Demo.world = Ok g ∧ df_transfers g ≡ₚ all_transfers g.
Proof.
  eexists. split; [vm_compute; reflexivity|].
  refine (proj1 (transfers_sorted Demo.world _ _)).
  vm_compute. reflexivity.
Defined.

(** ** The catalog and the transfer aggregator *)

Lemma for_each_fmap {A B S : Type} (f : A → B) (body : B → S → result S)
    (l : list A) (s : S) :
  for_each body (f <$> l) s = for_each (λ x, body (f x)) l s.
Proof.
  revert s. induction l as [|x l IH]; intros s; simpl; [done|].
  destruct (body (f x) s); simpl; [apply IH|done].
Qed.

(** The three tables of a catalog that was built have the player ids
    as their keys. *)
Lemma build_catalog_dom (b : Bootstrap.t) (cat : catalog) :
  build_catalog b = Ok cat →
  let ids : gset Z := list_to_set (Element.id <$> Bootstrap.elements b) in
  dom (id_to_name cat) = ids
  ∧ dom (id_to_team cat) = ids
  ∧ dom (id_to_position cat) = ids.
Proof.
  unfold build_catalog.
  match goal with
  | |- ?m ≫= _ = _ → _ => destruct m as [by_team|] eqn:Ht; simpl; [|done]
  end.
  match goal with
  | |- ?m ≫= _ = _ → _ => destruct m as [by_position|] eqn:Hp; simpl; [|done]
  end.
  intros [= <-]. simpl. split_and!.
  - apply dict_of_dom.
  - by eapply dict_ofM_dom.
  - by eapply dict_ofM_dom.
Qed.

Section Transfers.
Variable w : World.
Variable em : list (Z * entry_info).
Variable cat : catalog.
Variable chips : chip_state.

Lemma transfers_entry_flat e acc :
  transfers_entry w em cat chips e acc
  = for_each (λ et, transfer_step em cat chips et.1 et.2)
             (if status_code (get_transfers w e) =? 200
              then pair e <$> json (get_transfers w e) else []) acc.
Proof.
  unfold transfers_entry.
  destruct (status_code (get_transfers w e) =? 200); [|done].
  by rewrite for_each_fmap.
Qed.

(** The nested loops visit the fetched logs transfer by transfer. *)
Lemma transfers_loop_flat entries acc :
  transfers_loop w em cat chips entries acc
  = for_each (λ et, transfer_step em cat chips et.1 et.2)
             (transfer_log w entries) acc.
Proof.
  unfold transfers_loop, transfer_log. revert acc.
  induction entries as [|e entries IH]; intros acc; [done|].
  cbn [for_each mbind list_bind]. rewrite for_each_app.
  rewrite transfers_entry_flat.
  match goal with
  | |- ?m ≫= _ = _ => destruct m; simpl; [apply IH|done]
  end.
Qed.

(** A transfer with a player outside the catalog is dropped. *)
Lemma transfer_step_dropped e t acc :
  Transfer.element_in t ∉ dom (id_to_name cat)
  ∨ Transfer.element_out t ∉ dom (id_to_name cat) →
  transfer_step em cat chips e t acc = Ok acc.
Proof.
  intros Hout. unfold transfer_step.
  destruct (dict_in (Transfer.element_in t) _) eqn:Hi; simpl; [|done].
  destruct (dict_in (Transfer.element_out t) _) eqn:Ho; simpl; [|done].
  apply dict_in_dom in Hi, Ho. by destruct Hout.
Qed.

Lemma transfer_step_inv e t acc res :
  transfer_step em cat chips e t acc = Ok res →
  (res = acc
   ∧ (Transfer.element_in t ∉ dom (id_to_name cat)
      ∨ Transfer.element_out t ∉ dom (id_to_name cat)))
  ∨ (∃ info row,
       res = acc ++ [row]
       ∧ odict_getitem em e = Ok info
       ∧ Transfer.element_in t ∈ dom (id_to_name cat)
       ∧ Transfer.element_out t ∈ dom (id_to_name cat)
       ∧ transfer_row_of cat info t row
       ∧ TransferRow.free_hit_active row
         = flag (Transfer.event t) (free_hit_by_entry chips) e).
Proof.
  unfold transfer_step, transfer_row_of.
  destruct (dict_in (Transfer.element_in t) _) eqn:Hi; simpl.
  2:{ intros [= <-]. left. split; [done|]. left.
      rewrite <- dict_in_dom. congruence. }
  destruct (dict_in (Transfer.element_out t) _) eqn:Ho; simpl.
  2:{ intros [= <-]. left. split; [done|]. right.
      rewrite <- dict_in_dom. congruence. }
  apply dict_in_dom in Hi, Ho.
  destruct (odict_getitem em e) as [info|]; simpl; [|done].
  unfold dict_getitem.
  repeat match goal with
         | |- context [match ?m !! ?k with _ => _ end] =>
             let H := fresh "Hl" in destruct (m !! k) eqn:H; simpl; [|done]
         end.
  intros [= <-]. right. eexists info, _. split_and!; done.
Qed.

Lemma transfer_step_appending e :
  appending (λ t, transfer_step em cat chips e t).
Proof.
  intros t acc. unfold transfer_step.
  destruct (negb _ || negb _); simpl; [by rewrite app_nil_r|].
  destruct (odict_getitem em e); simpl; [|done].
  unfold dict_getitem.
  repeat match goal with
         | |- context [match ?m !! ?k with _ => _ end] =>
             destruct (m !! k); simpl; [|done]
         end.
  done.
Qed.
End Transfers.

Lemma elem_of_transfer_log (w : World) (entries : list Z) (e : Z)
    (t : Transfer.t) :
  (e, t) ∈ transfer_log w entries
  ↔ e ∈ entries ∧ status_code (get_transfers w e) = 200
    ∧ t ∈ json (get_transfers w e).
Proof.
  unfold transfer_log. rewrite list_elem_of_bind. split.
  - intros (e' & Hin & He').
    destruct (Z.eqb_spec (status_code (get_transfers w e')) 200)
      as [H200|Hne]; [|by apply not_elem_of_nil in Hin].
    apply list_elem_of_fmap in Hin as (t' & [= -> ->] & Ht'). done.
  - intros (He & H200 & Ht). exists e. split; [|done].
    rewrite H200. simpl. by apply list_elem_of_fmap_2.
Qed.

(** Lookups in a catalog whose three tables share their keys. *)
Section SharedKeys.
Variable cat : catalog.
Hypothesis Hteam : dom (id_to_name cat) = dom (id_to_team cat).
Hypothesis Hposition : dom (id_to_name cat) = dom (id_to_position cat).

Lemma catalog_lookup_all k :
  dict_in k (id_to_name cat) = true →
  ∃ n tm p, id_to_name cat !! k = Some n
            ∧ id_to_team cat !! k = Some tm
            ∧ id_to_position cat !! k = Some p.
Proof using Hteam Hposition.
  intros Hk%dict_in_dom.
  assert (k ∈ dom (id_to_team cat)) as [tm Htm]%elem_of_dom
    by by rewrite <- Hteam.
  assert (k ∈ dom (id_to_position cat)) as [p Hpos]%elem_of_dom
    by by rewrite <- Hposition.
  apply elem_of_dom in Hk as [n Hname]. eauto 6.
Qed.

Lemma transfer_step_kept t em chips e info acc :
  dict_in (Transfer.element_in t) (id_to_name cat) = true →
  dict_in (Transfer.element_out t) (id_to_name cat) = true →
  odict_getitem em e = Ok info →
  ∃ row, transfer_step em cat chips e t acc = Ok (acc ++ [row])
         ∧ transfer_row_of cat info t row.
Proof using Hteam Hposition.
  intros Hi Ho Hinfo.
  destruct (catalog_lookup_all _ Hi) as (n1 & t1 & p1 & Hn1 & Ht1 & Hp1).
  destruct (catalog_lookup_all _ Ho) as (n2 & t2 & p2 & Hn2 & Ht2 & Hp2).
  unfold transfer_step, dict_getitem.
  rewrite Hi, Ho, Hinfo, Hn1, Ht1, Hp1, Hn2, Ht2, Hp2. simpl.
  eexists. split; [reflexivity|]. by unfold transfer_row_of.
Qed.

Lemma transfers_loop_total w em chips entries :
  (∀ e, e ∈ entries → e ∈ odict_keys em) →
  ∃ res, transfers_loop w em cat chips entries [] = Ok res.
Proof using Hteam Hposition.
  intros Hkeys. rewrite transfers_loop_flat.
  apply for_each_total. intros [e t] acc [He _]%elem_of_transfer_log.
  simpl.
  destruct (dict_in (Transfer.element_in t) (id_to_name cat)) eqn:Hi.
  2:{ exists acc. apply transfer_step_dropped. left.
      rewrite <- dict_in_dom. congruence. }
  destruct (dict_in (Transfer.element_out t) (id_to_name cat)) eqn:Ho.
  2:{ exists acc. apply transfer_step_dropped. right.
      rewrite <- dict_in_dom. congruence. }
  destruct (odict_getitem_key em e (Hkeys e He)) as [info Hinfo].
  destruct (transfer_step_kept t em chips e info acc Hi Ho Hinfo)
    as (row & -> & _).
  eauto.
Qed.
End SharedKeys.

(** C10: the three catalog tables of a catalog that was built have the
    same key set, so for a transfer that passes the membership test on
    the name table none of the six direct lookups raises: the transfer
    step returns with the row appended, and the whole transfer
    aggregator never raises on the league's entries. *)
Theorem catalog_lookups_cannot_fail (b : Bootstrap.t) (cat : catalog) :
  build_catalog b = Ok cat →
  dom (id_to_name cat) = dom (id_to_team cat)
  ∧ dom (id_to_name cat) = dom (id_to_position cat)
  ∧ (∀ t,
       dict_in (Transfer.element_in t) (id_to_name cat) = true →
       dict_in (Transfer.element_out t) (id_to_name cat) = true →
       (∀ k, k = Transfer.element_in t ∨ k = Transfer.element_out t →
             ∃ n tm p, dict_getitem (id_to_name cat) k = Ok n
                       ∧ dict_getitem (id_to_team cat) k = Ok tm
                       ∧ dict_getitem (id_to_position cat) k = Ok p)
       ∧ ∀ em chips e info acc,
           odict_getitem em e = Ok info →
           ∃ row, transfer_step em cat chips e t acc = Ok (acc ++ [row])
                  ∧ transfer_row_of cat info t row)
  ∧ (∀ w em chips entries,
       (∀ e, e ∈ entries → e ∈ odict_keys em) →
       ∃ res, transfers_loop w em cat chips entries [] = Ok res).
Proof.
  intros (Hn & Ht & Hp)%build_catalog_dom.
  assert (dom (id_to_name cat) = dom (id_to_team cat)) as Hteam
    by by rewrite Hn, Ht.
  assert (dom (id_to_name cat) = dom (id_to_position cat)) as Hposition
    by by rewrite Hn, Hp.
  split_and!; [done..| |].
  - intros t Hi Ho. split.
    + intros k [->| ->];
        [destruct (catalog_lookup_all cat Hteam Hposition _ Hi)
           as (n & tm & p & H1 & H2 & H3)
        |destruct (catalog_lookup_all cat Hteam Hposition _ Ho)
           as (n & tm & p & H1 & H2 & H3)];
        exists n, tm, p; unfold dict_getitem; by rewrite H1, H2, H3.
    + intros em chips e info acc.
      by apply transfer_step_kept.
  - intros w em chips entries. by apply transfers_loop_total.
Qed.

Lemma catalog_lookups_cannot_fail_witness :
  ∃ cat, build_catalog Demo.bootstrap = Ok cat
         ∧ dom (id_to_name cat) = dom (id_to_team cat).
Proof.
  eexists. split; [vm_compute; reflexivity|].
  refine (proj1 (catalog_lookups_cannot_fail Demo.bootstrap _ _)).
  vm_compute. reflexivity.
Defined.

Lemma sort_transfers_perm (df : list TransferRow.t) : sort_transfers df ≡ₚ df.
Proof. destruct df; [done|apply sort_values_perm]. Qed.

(** C3: a transfer whose incoming or outgoing player id is not in the
    catalog leaves the table unchanged; the rows of the final table are
    exactly the transfer records of the fetched logs, one chunk per
    transfer; and every transfer record stems from a transfer whose two
    player ids are catalog keys and carries the catalog data of those
    ids. *)
Theorem transfer_filter (w : World) (g : globals) :
  run w = Ok g →
  (∀ e t acc,
     Transfer.element_in t ∉ dom (id_to_name (cat g))
     ∨ Transfer.element_out t ∉ dom (id_to_name (cat g)) →
     transfer_step (entry_map g) (cat g) (chips g) e t acc = Ok acc)
  ∧ (∀ row, row ∈ df_transfers g
            ↔ ∃ e t, (e, t) ∈ transfer_log w (entries g)
                     ∧ transfer_record w g e t row)
  ∧ (∀ e t row,
       transfer_record w g e t row →
       Transfer.element_in t ∈ dom (id_to_name (cat g))
       ∧ Transfer.element_out t ∈ dom (id_to_name (cat g))
       ∧ ∃ info, odict_getitem (entry_map g) e = Ok info
                 ∧ transfer_row_of (cat g) info t row)
  ∧ ∃ chunks,
      all_transfers g = concat chunks
      ∧ Forall2 (λ et c,
                   transfer_step (entry_map g) (cat g) (chips g)
                     et.1 et.2 [] = Ok c
                   ∧ (c = [] ∨ ∃ row, c = [row]))
                (transfer_log w (entries g)) chunks.
Proof.
  intros Hrun.
  destruct (run_inv w g Hrun) as (_ & _ & _ & _ & _ & Htr & Hdf).
  rewrite transfers_loop_flat in Htr.
  assert (appending (λ et : Z * Transfer.t,
            transfer_step (entry_map g) (cat g) (chips g) et.1 et.2))
    as Happ by (intros [e t] acc; apply transfer_step_appending).
  split_and!.
  - intros e t acc. apply transfer_step_dropped.
  - intros row. rewrite Hdf, sort_transfers_perm.
    rewrite (for_each_elem_of _ _ _ _ Happ Htr). unfold transfer_record.
    split.
    + intros [[]%not_elem_of_nil|([e t] & rows & Het & Hrows & Hrow)].
      exists e, t. split; [done|]. simpl in Hrows. rewrite Hrows. f_equal.
      destruct (transfer_step_inv _ _ _ _ _ _ _ Hrows)
        as [[-> _]|(info & row' & -> & _)].
      * by apply not_elem_of_nil in Hrow.
      * simpl in *. by apply list_elem_of_singleton in Hrow as ->.
    + intros (e & t & Het & Hrow). right.
      exists (e, t), [row]. split_and!; [done..|left].
  - intros e t row Hrow. unfold transfer_record in Hrow.
    destruct (transfer_step_inv _ _ _ _ _ _ _ Hrow)
      as [[[=] _]|(info & row' & [= <-] & Hinfo & Hi & Ho & Hof & _)].
    eauto.
  - destruct (for_each_chunks _ _ _ _ Happ Htr) as (chunks & -> & Hch).
    exists chunks. split; [done|].
    eapply Forall2_impl; [exact Hch|]. intros [e t] c Hc. split; [done|].
    simpl in Hc.
    destruct (transfer_step_inv _ _ _ _ _ _ _ Hc)
      as [[-> _]|(info & row' & -> & _)]; [by left|right; eauto].
Qed.

Lemma transfer_filter_witness :
  ∃ g, run Demo.world = Ok g
       ∧ transfer_step (entry_map g) (cat g) (chips g) 100
           (Demo.transfer 99 7 4) [] = Ok [].
Proof.
  eexists. split; [vm_compute; reflexivity|].
  refine (proj1 (transfer_filter Demo.world _ _) 100 (Demo.transfer 99 7 4)
            [] _).
  - vm_compute. reflexivity.
  - left. apply not_elem_of_dom. vm_compute. reflexivity.
Defined.

(** ** The end-to-end scenario *)

Lemma captain_of_unique (picks : list Pick.t) (c : Z) :
  (∃ p, p ∈ picks ∧ Pick.is_captain p = true) →
  (∀ p, p ∈ picks → Pick.is_captain p = true → Pick.element p = c) →
  captain_of picks = Some c.
Proof.
  intros (p & Hp & Hcap) Hall. unfold captain_of.
  destruct (List.find Pick.is_captain picks) as [q|] eqn:Hfind; simpl.
  - apply List.find_some in Hfind as [Hq%list_elem_of_In Hqc].
    f_equal. by apply Hall.
  - apply list_elem_of_In in Hp.
    pose proof (List.find_none _ _ Hfind p Hp). congruence.
Qed.

(** C6: entry 100 lists the single chip 3xc at gameweek 15, its picks
    for gameweek 15 flag player 7 (and nobody else) as captain, and the
    live scores of gameweek 15 give player 7 18 points.  Then, in a
    completed run, the chip row of entry 100 has 'Triple Captain' 15,
    'Triple Captain Player' the catalog name of player 7 and 'TC Points'
    18; the captaincy record of (100, 15) exists, is in the table and
    has 'Triple Captain Used' "Yes"; every captaincy record of entry 100
    for another gameweek has "No". *)
Theorem triple_captain_scenario (w : World) (g : globals) (i : nat)
    (picks : list Pick.t) :
  run w = Ok g →
  entries g !! i = Some 100 →
  status_code (get_history w 100) = 200 →
  History.chips (json (get_history w 100))
  = Some [{| Chip.name := "3xc"; Chip.event := 15 |}] →
  status_code (get_picks w 100 15) = 200 →
  Picks.picks (json (get_picks w 100 15)) = Some picks →
  (∃ p, p ∈ picks ∧ Pick.is_captain p = true) →
  (∀ p, p ∈ picks → Pick.is_captain p = true → Pick.element p = 7) →
  status_code (get_live w 15) = 200 →
  (∃ p, p ∈ Live.elements (json (get_live w 15)) ∧ LiveElement.id p = 7) →
  (∀ p, p ∈ Live.elements (json (get_live w 15)) →
        LiveElement.id p = 7 → LiveElement.total_points p = 18) →
  (∃ row,
     df_chips g !! i = Some row
     ∧ ChipRow.triple_captain row = CInt 15
     ∧ ChipRow.triple_captain_player row
       = dict_get_cell CStr (id_to_name (cat g)) 7
     ∧ (∀ nm,
          (∃ el, el ∈ Bootstrap.elements (get_bootstrap w)
                 ∧ Element.id el = 7) →
          (∀ el, el ∈ Bootstrap.elements (get_bootstrap w) →
                 Element.id el = 7 → Element.web_name el = nm) →
          ChipRow.triple_captain_player row = CStr nm)
     ∧ ChipRow.tc_points row = CInt 18)
  ∧ (∃ crow,
       captaincy_record w g 100 15 crow
       ∧ crow ∈ df_captaincy g
       ∧ CaptaincyRow.gameweek crow = 15
       ∧ CaptaincyRow.triple_captain_used crow = "Yes")
  ∧ (∀ gw crow,
       gw ≠ 15 →
       captaincy_record w g 100 gw crow →
       CaptaincyRow.triple_captain_used crow = "No").
Proof.
  intros Hrun Hi Hhist Hchips Hpicks200 Hpicks Hcap1 Hcap2 Hlive200
    Hlive1 Hlive2.
  destruct (run_inv w g Hrun) as (_ & _ & Hcat & Hloop & Hcaptaincy & _).
  destruct (run_entries w g Hrun) as [_ Hnames].
  assert (100 ∈ entries g) as Hin by by eapply list_elem_of_lookup_2.
  destruct (Hnames 100 Hin) as [info Hinfo].
  pose proof (captain_of_unique picks 7 Hcap1 Hcap2) as Hcaptain.
  destruct (chip_loop_inv _ _ _ _ _ Hloop) as (Hrows & _ & Htc).
  assert (triple_captain_week_by_entry (chips g) !! 100 = Some (Some 15))
    as Hweek.
  { rewrite Htc, decide_True by done. unfold stored_week.
    by rewrite Hhist, Hchips. }
  split_and!.
  - destruct (Forall2_lookup_l _ _ _ _ _ Hrows Hi)
      as (row & Hrow & st & Hst & Hdata).
    exists row. split; [done|].
    unfold chip_entry, scan_history, resolve_triple_captain in Hst.
    rewrite Hinfo, Hhist, Hchips in Hst. simpl in Hst.
    rewrite Hpicks200, Hlive200, Hpicks, Hcaptain in Hst. simpl in Hst.
    injection Hst as <-. simpl in Hdata. injection Hdata as <-. simpl.
    split_and!; [done..| |].
    + intros nm Hel Hnm. unfold dict_get_cell.
      unfold build_catalog in Hcat.
      repeat match type of Hcat with
             | ?m ≫= _ = _ => destruct m; simpl in Hcat; [|done]
             end.
      injection Hcat as <-. simpl.
      by rewrite (dict_of_lookup_agree _ _ _ _ nm Hel Hnm).
    + unfold dict_get_cell, points_map.
      by rewrite (dict_of_lookup_agree _ _ _ _ 18 Hlive1 Hlive2).
  - set (crow :=
           {| CaptaincyRow.manager_name := manager_name info;
              CaptaincyRow.team_name := team_name info;
              CaptaincyRow.gameweek := 15;
              CaptaincyRow.captain :=
                dict_get_cell CStr (id_to_name (cat g)) 7;
              CaptaincyRow.captain_points :=
                dict_get_cell CInt (points_map (json (get_live w 15))) 7;
              CaptaincyRow.triple_captain_used :=
                flag 15 (triple_captain_week_by_entry (chips g)) 100 |}).
    assert (captaincy_record w g 100 15 crow) as Hrec.
    { split; [done|]. unfold captaincy_entry.
      rewrite Hpicks200, Hpicks. simpl. rewrite Hcaptain. simpl.
      by rewrite Hinfo. }
    exists crow. split_and!; [done| |done|].
    + unfold df_captaincy.
      rewrite (captaincy_loop_rows _ _ _ _ _ _ Hcaptaincy).
      exists 100, 15. destruct Hrec as [? ?].
      split_and!; [done|by apply elem_of_gameweeks|done..].
    + simpl. unfold flag, dict_get. by rewrite Hweek.
  - intros gw crow Hgw [_ Hrow].
    destruct (captaincy_entry_cases w (entry_map g) (cat g) (chips g) gw
                (points_map (json (get_live w gw))) 100 [])
      as [H|[(info' & c & _ & _ & _ & H)|(x & H & _)]];
      rewrite H in Hrow; [done| |done].
    injection Hrow as <-. simpl.
    destruct (flag_cases gw (triple_captain_week_by_entry (chips g)) 100)
      as [[_ Hs]|[-> _]]; [|done].
    rewrite Hweek in Hs. congruence.
Qed.

Lemma triple_captain_scenario_witness :
  ∃ g, run Demo.world = Ok g
       ∧ ∃ row, df_chips g !! 0%nat = Some row
                ∧ ChipRow.triple_captain row = CInt 15
                ∧ ChipRow.triple_captain_player row = CStr "Salah"
                ∧ ChipRow.tc_points row = CInt 18.
Proof.
  eexists. split; [vm_compute; reflexivity|].
  match goal with
  | |- ∃ row, df_chips ?g !! _ = _ ∧ _ =>
      destruct (triple_captain_scenario Demo.world g 0%nat
                  [Demo.pick 9 false; Demo.pick 7 true])
        as [(row & Hrow & Htc & Hplayer & _ & Hpoints) _];
        [vm_compute; reflexivity ..| | | | | |]
  end.
  - exists (Demo.pick 7 true). split; [right; left|reflexivity].
  - intros p [->|[->|[]%not_elem_of_nil]%elem_of_cons]%elem_of_cons;
      [discriminate|reflexivity].
  - reflexivity.
  - eexists. split; [left|reflexivity].
  - intros p [->|[->|[]%not_elem_of_nil]%elem_of_cons]%elem_of_cons;
      [reflexivity|discriminate].
  - exists row. split_and!; [exact Hrow|exact Htc|exact Hplayer|exact Hpoints].
Defined.

(** ** Completion *)

(** On a well-formed provider no iteration raises: the script reaches
    the point where it writes the workbook. *)
Lemma run_total (w : World) : well_formed w → ∃ g, run w = Ok g.
Proof.
  intros [Hels Hpicks]. unfold run.
  set (em := build_entry_map (get_standings w)).
  assert (∃ c, build_catalog (get_bootstrap w) = Ok c) as [c Hc].
  { unfold build_catalog. rewrite Forall_forall in Hels.
    destruct (dict_ofM_total Element.id
                (λ e, tm ← list_getitem (Bootstrap.teams (get_bootstrap w))
                              (Element.team e - 1); Ok (Team.name tm))
                (Bootstrap.elements (get_bootstrap w))) as [bt ->].
    { intros e [He _]%Hels.
      destruct (list_getitem_in_range (Bootstrap.teams (get_bootstrap w))
                  (Element.team e - 1)) as [tm ->]; [lia|]. simpl. eauto. }
    destruct (dict_ofM_total Element.id
                (λ e, p ← list_getitem
                            (Bootstrap.element_types (get_bootstrap w))
                            (Element.element_type e - 1);
                      Ok (Position.singular_name p))
                (Bootstrap.elements (get_bootstrap w))) as [bp ->].
    { intros e [_ He]%Hels.
      destruct (list_getitem_in_range
                  (Bootstrap.element_types (get_bootstrap w))
                  (Element.element_type e - 1)) as [p ->]; [lia|].
      simpl. eauto. }
    simpl. eauto. }
  rewrite Hc. simpl.
  destruct (for_each_total (chip_entry w em c) (odict_keys em) chip_state_init)
    as [ch Hch].
  { intros e st [info Hinfo]%odict_getitem_key. unfold chip_entry.
    rewrite Hinfo. simpl.
    destruct (scan_history _ _) as [[d fh] tc].
    assert (∃ d', resolve_triple_captain w c e tc d = Ok d') as [d' ->];
      [|simpl; eauto].
    unfold resolve_triple_captain.
    destruct (truthy tc) as [week|]; [|eauto].
    destruct (Z.eqb_spec (status_code (get_picks w e week)) 200)
      as [H200|?]; simpl; [|eauto].
    destruct (status_code (get_live w week) =? 200); [|eauto].
    destruct (Hpicks e week H200) as [ps ->].
    destruct (truthy (captain_of ps)); eauto. }
  unfold chip_loop. rewrite Hch. simpl.
  destruct (for_each_total (captaincy_gw w em c ch (odict_keys em))
              gameweeks []) as [cd Hcd].
  { intros gw data _. unfold captaincy_gw.
    destruct (negb _); [eauto|].
    apply for_each_total. intros e data' [info Hinfo]%odict_getitem_key.
    destruct (captaincy_entry_cases w em c ch gw
                (points_map (json (get_live w gw))) e data')
      as [H|[(? & ? & _ & _ & _ & H)|(x & _ & Hx)]]; [eauto..|congruence]. }
  unfold captaincy_loop. rewrite Hcd. simpl.
  apply build_catalog_dom in Hc as (Hn & Ht & Hp).
  destruct (transfers_loop_total c) with (w := w) (em := em) (chips := ch)
    (entries := odict_keys em) as [tr ->];
    [by rewrite Hn, Ht|by rewrite Hn, Hp|done|].
  simpl. eauto.
Qed.

(** The demo provider is well formed. *)
Lemma demo_well_formed : well_formed Demo.world.
Proof.
  split.
  - repeat constructor; simpl; lia.
  - intros e gw. simpl. unfold Demo.picks.
    repeat match goal with
           | |- context [if ?b then _ else _] => destruct b
           end; simpl; try eauto; discriminate.
Qed.

(** * Further properties of the script *)

(** ** The league roster (lines 15-22) *)

Lemma odict_getitem_set {V : Type} (k k' : Z) (v : V) (d : list (Z * V)) :
  odict_getitem (odict_set k v d) k'
  = if decide (k = k') then Ok v else odict_getitem d k'.
Proof.
  induction d as [|[k0 v0] d IH]; simpl.
  - by destruct (decide (k = k')).
  - destruct (decide (k0 = k)) as [->|Hne]; simpl.
    + by destruct (decide (k = k')).
    + rewrite IH. destruct (decide (k0 = k')) as [->|?]; [|done].
      by rewrite decide_False.
Qed.

(** X1: the league entries are the entry ids of the standings, each
    once, in the order of their first row; the names kept for an entry
    are those of its last row, and an id that is in no row is not a
    key. *)
Theorem entry_map_of_standings (results : list Standing.t) :
  odict_keys (build_entry_map results)
  = reverse (remove_dups (reverse (Standing.entry <$> results)))
  ∧ ∀ k, odict_getitem (build_entry_map results) k
         = match last (filter (λ r, Standing.entry r = k) results) with
           | Some r => Ok {| manager_name := Standing.player_name r;
                             team_name := Standing.entry_name r |}
           | None => Raise KeyError
           end.
Proof.
  unfold build_entry_map. induction results as [|r rs [IH1 IH2]] using rev_ind;
    [done|].
  rewrite foldl_snoc. split.
  - rewrite odict_keys_set, IH1, fmap_app, reverse_app. simpl.
    destruct (decide_rel elem_of (Standing.entry r)
                (reverse (Standing.entry <$> rs))) as [Hin|Hnin].
    + rewrite decide_True; [done|].
      by rewrite elem_of_reverse, elem_of_remove_dups.
    + rewrite decide_False, reverse_cons; [done|].
      by rewrite elem_of_reverse, elem_of_remove_dups.
  - intros k. rewrite odict_getitem_set, last_filter_snoc, IH2.
    by destruct (decide (Standing.entry r = k)).
Qed.

(** ** The catalog (lines 30-32) *)





Section DictM.
Context {A V : Type} (key : A → Z) (val : A → result V).

Lemma dict_ofM_lookup l m k :
  dict_ofM key val l = Ok m →
  match last (filter (λ e, key e = k) l) with
  | Some e => ∃ v, val e = Ok v ∧ m !! k = Some v
  | None => m !! k = None
  end.
Proof.
  unfold dict_ofM. intros Hm. pattern l, m.
  eapply for_each_ind; [| |exact Hm]; simpl; [done|].
  intros done e m1 m2 IH. destruct (val e) as [v|] eqn:Hv; simpl; [|done].
  intros [= <-]. rewrite last_filter_snoc.
  destruct (decide (key e = k)) as [<-|Hne].
  - exists v. by rewrite lookup_insert_eq.
  - by rewrite lookup_insert_ne.
Qed.


End DictM.



(** X2: in a catalog that was built, a player id is a key of the three
    tables exactly when some element carries it, and the tables hold
    the name, team name and position name of the last such element. *)
Theorem catalog_values (b : Bootstrap.t) (cat : catalog) (k : Z) :
  build_catalog b = Ok cat →
  match last (filter (λ e, Element.id e = k) (Bootstrap.elements b)) with
  | Some e =>
      id_to_name cat !! k = Some (Element.web_name e)
      ∧ (∃ tm, list_getitem (Bootstrap.teams b) (Element.team e - 1) = Ok tm
               ∧ id_to_team cat !! k = Some (Team.name tm))
      ∧ (∃ p, list_getitem (Bootstrap.element_types b)
                (Element.element_type e - 1) = Ok p
              ∧ id_to_position cat !! k = Some (Position.singular_name p))
  | None =>
      id_to_name cat !! k = None
      ∧ id_to_team cat !! k = None
      ∧ id_to_position cat !! k = None
  end.
Proof.
  unfold build_catalog.
  match goal with
  | |- ?m ≫= _ = _ → _ => destruct m as [by_team|] eqn:Ht; simpl; [|done]
  end.
  match goal with
  | |- ?m ≫= _ = _ → _ => destruct m as [by_position|] eqn:Hp; simpl; [|done]
  end.
  intros [= <-]. simpl.
  apply dict_ofM_lookup with (k := k) in Ht, Hp.
  rewrite dict_of_lookup.
  destruct (last (filter (λ e, Element.id e = k) (Bootstrap.elements b)))
    as [e|]; [|done].
  destruct Ht as (tn & Htn & Ht), Hp as (pn & Hpn & Hp).
  split_and!; [done| |].
  - destruct (list_getitem (Bootstrap.teams b) _) as [tm|]; simpl in Htn;
      [|done]. injection Htn as <-. eauto.
  - destruct (list_getitem (Bootstrap.element_types b) _) as [p|];
      simpl in Hpn; [|done]. injection Hpn as <-. eauto.
Qed.

Lemma catalog_values_witness :
  ∃ cat, build_catalog Demo.bootstrap = Ok cat
         ∧ id_to_name cat !! 9 = Some "Haaland".
Proof.
  eexists. split; [vm_compute; reflexivity|].
  refine (proj1 (catalog_values Demo.bootstrap _ 9 _)).
  vm_compute. reflexivity.
Defined.



(** ** The chip table (lines 35-97) *)

Section ChipRows.
Variable w : World.
Variable em : list (Z * entry_info).
Variable cat : catalog.

(** The chip record of an entry is the scanned row passed through the
    secondary fetch, whose two columns the scan leaves at the sentinel. *)
Lemma chip_record_resolved e row :
  chip_record w em cat e row →
  ∃ d, ChipRow.triple_captain_player d = sentinel
       ∧ ChipRow.tc_points d = sentinel
       ∧ resolve_triple_captain w cat e
           (stored_week "3xc" (get_history w e)) d = Ok row.
Proof.
  intros (st & Hst & Hdata). unfold chip_entry in Hst.
  destruct (odict_getitem em e) as [info|]; simpl in Hst; [|done].
  destruct (scan_history_weeks (get_history w e) (chip_dict_init info))
    as [_ Htc].
  assert (ChipRow.triple_captain_player
            (scan_history (get_history w e) (chip_dict_init info)).1.1
          = sentinel
          ∧ ChipRow.tc_points
              (scan_history (get_history w e) (chip_dict_init info)).1.1
            = sentinel) as [Hp Hpts].
  { unfold scan_history. destruct (status_code _ =? 200); [|done].
    by destruct (chip_scan (chip_dict_init info)
                   (default [] (History.chips (json (get_history w e))))). }
  destruct (scan_history _ _) as [[d fh] tc]. simpl in *. subst tc.
  destruct (resolve_triple_captain _ _ _ _ _) as [d'|] eqn:Hres;
    simpl in Hst; [|done].
  injection Hst as <-. simpl in Hdata. injection Hdata as <-. eauto.
Qed.


End ChipRows.


(** X4: in a completed run the chip table has one row per league
    entry, in league order; the row carries the entry's names, and each
    of its five gameweek columns holds the last activation in the
    entry's history that writes it (the sentinel when there is none or
    the history fetch failed). *)
Theorem chip_table_rows (w : World) (g : globals) :
  run w = Ok g →
  length (df_chips g) = length (entries g)
  ∧ ∀ i e,
      entries g !! i = Some e →
      let chips :=
        if status_code (get_history w e) =? 200
        then default [] (History.chips (json (get_history w e))) else [] in
      ∃ row info,
        df_chips g !! i = Some row
        ∧ odict_getitem (entry_map g) e = Ok info
        ∧ ChipRow.manager_name row = manager_name info
        ∧ ChipRow.team_name row = team_name info
        ∧ ChipRow.wildcard_1 row
          = from_option CInt sentinel (last_wildcard true chips)
        ∧ ChipRow.wildcard_2 row
          = from_option CInt sentinel (last_wildcard false chips)
        ∧ ChipRow.free_hit row
          = from_option CInt sentinel (last_activation "freehit" chips)
        ∧ ChipRow.bench_boost row
          = from_option CInt sentinel (last_activation "bboost" chips)
        ∧ ChipRow.triple_captain row
          = from_option CInt sentinel (last_activation "3xc" chips).
Proof.
  intros (_ & _ & _ & Hch & _)%run_inv.
  apply chip_loop_inv in Hch as [Hrows _]. split.
  - symmetry. by eapply Forall2_length.
  - intros i e Hi chips.
    destruct (Forall2_lookup_l _ _ _ _ _ Hrows Hi) as (row & Hrow & Hrec).
    destruct (chip_record_fields _ _ _ _ _ Hrec) as (info & H).
    exists row, info. by split.
Qed.

Lemma chip_table_rows_witness :
  ∃ g, run Demo.world = Ok g ∧ length (df_chips g) = length (entries g).
Proof.
  eexists. split; [vm_compute; reflexivity|].
  refine (proj1 (chip_table_rows Demo.world _ _)).
  vm_compute. reflexivity.
Defined.

(** X5: the two triple-captain columns of an entry's chip record.  They
    stay at the sentinel when no triple-captain week is stored, when it
    is 0, when the picks or the live scores of that week are not
    available, or when the picks flag no captain.  When the week's
    picks flag captain [c] (with a non-zero id), 'Triple Captain
    Player' is [c]'s catalog name and 'TC Points' is [c]'s total in the
    week's live scores, each replaced by the sentinel when [c] is not a
    key. *)
Theorem chip_record_triple_captain (w : World) (em : list (Z * entry_info))
    (cat : catalog) (e : Z) (row : ChipRow.t) :
  chip_record w em cat e row →
  let week := stored_week "3xc" (get_history w e) in
  (week = None ∨ week = Some 0
   ∨ (∃ k, week = Some k
           ∧ (status_code (get_picks w e k) ≠ 200
              ∨ status_code (get_live w k) ≠ 200
              ∨ ∃ ps, Picks.picks (json (get_picks w e k)) = Some ps
                      ∧ Forall (λ p, Pick.is_captain p = false) ps)) →
   ChipRow.triple_captain_player row = sentinel
   ∧ ChipRow.tc_points row = sentinel)
  ∧ (∀ k ps c,
       week = Some k → k ≠ 0 →
       status_code (get_picks w e k) = 200 →
       status_code (get_live w k) = 200 →
       Picks.picks (json (get_picks w e k)) = Some ps →
       captain_of ps = Some c → c ≠ 0 →
       ChipRow.triple_captain_player row
       = dict_get_cell CStr (id_to_name cat) c
       ∧ ChipRow.tc_points row
         = dict_get_cell CInt (points_map (json (get_live w k))) c).
Proof.
  intros (d & Hp & Hpts & Hres)%chip_record_resolved week. subst week.
  unfold resolve_triple_captain in Hres. split.
  - intros [Hw|[Hw|(k & Hw & Hk)]]; rewrite Hw in Hres; simpl in Hres.
    + by injection Hres as <-.
    + by injection Hres as <-.
    + destruct (k =? 0); [by injection Hres as <-|].
      destruct (Z.eqb_spec (status_code (get_picks w e k)) 200) as [H1|H1];
        simpl in Hres; [|by injection Hres as <-].
      destruct (Z.eqb_spec (status_code (get_live w k)) 200) as [H2|H2];
        simpl in Hres; [|by injection Hres as <-].
      destruct Hk as [?|[?|(ps & Hps & Hno%captain_of_None)]]; [done..|].
      rewrite Hps, Hno in Hres. simpl in Hres. by injection Hres as <-.
  - intros k ps c Hw Hk H1 H2 Hps Hc Hc0. rewrite Hw in Hres. simpl in Hres.
    destruct (Z.eqb_spec k 0); [done|].
    rewrite H1, H2, Hps, Hc in Hres. simpl in Hres.
    destruct (Z.eqb_spec c 0); [done|]. by injection Hres as <-.
Qed.

Lemma chip_record_triple_captain_witness :
  ∃ row, chip_record Demo.world (build_entry_map Demo.standings)
           {| id_to_name := ∅; id_to_team := ∅; id_to_position := ∅ |}
           200 row
         ∧ ChipRow.triple_captain_player row = sentinel
         ∧ ChipRow.tc_points row = sentinel.
Proof.
  assert (∃ row, chip_record Demo.world (build_entry_map Demo.standings)
                   {| id_to_name := ∅; id_to_team := ∅;
                      id_to_position := ∅ |} 200 row) as [row Hrec].
  { eexists. eexists. split; vm_compute; reflexivity. }
  exists row. split; [exact Hrec|].
  apply (proj1 (chip_record_triple_captain _ _ _ _ _ Hrec)).
  left. vm_compute. reflexivity.
Defined.

(** ** How the run can end (lines 10-180) *)




(** ** The order of the captaincy table (lines 105-142) *)

Section ConcatSorted.
Context {A : Type} (key : A → Z).




End ConcatSorted.


Section CaptaincyOrder.
Variable w : World.
Variable em : list (Z * entry_info).
Variable cat : catalog.
Variable chips : chip_state.

End CaptaincyOrder.



(** ** The transfer table (lines 148-180) *)

(** X8: in a completed run the free-hit week stored for an entry is
    the last 'freehit' activation of its history (none when the fetch
    failed), and the record of a transfer has 'Free Hit Active' equal to
    "Yes" exactly when the transfer's gameweek is that stored week, and
    "No" otherwise. *)
Theorem free_hit_flag_correct (w : World) (g : globals) :
  run w = Ok g →
  (∀ e, e ∈ entries g →
     free_hit_by_entry (chips g) !! e
     = Some (stored_week "freehit" (get_history w e)))
  ∧ ∀ e t row,
      transfer_record w g e t row →
      TransferRow.gameweek row = Transfer.event t
      ∧ (TransferRow.free_hit_active row = "Yes"
         ↔ free_hit_by_entry (chips g) !! e = Some (Some (Transfer.event t)))
      ∧ (free_hit_by_entry (chips g) !! e ≠ Some (Some (Transfer.event t))
         → TransferRow.free_hit_active row = "No").
Proof.
  intros (_ & _ & _ & Hchips & _)%run_inv. split.
  - intros e He. apply chip_loop_inv in Hchips as (_ & -> & _).
    by rewrite decide_True.
  - intros e t row Hrow. unfold transfer_record in Hrow.
    destruct (transfer_step_inv _ _ _ _ _ _ _ Hrow)
      as [[[=] _]|(info & row' & [= <-] & _ & _ & _ & Hof & ->)].
    destruct Hof as (_ & _ & -> & _).
    destruct (flag_cases (Transfer.event t) (free_hit_by_entry (chips g)) e)
      as [[-> Hs]|[-> Hs]]; split_and!; try done.
Qed.

Lemma free_hit_flag_correct_witness :
  ∃ g, run Demo.world = Ok g
       ∧ free_hit_by_entry (chips g) !! 200 = Some (Some 3).
Proof.
  eexists. split; [vm_compute; reflexivity|].
  refine (proj1 (free_hit_flag_correct Demo.world _ _) 200 _).
  - vm_compute. reflexivity.
  - apply list_elem_of_In. vm_compute. tauto.
Defined.

Section TransferCount.
Variable em : list (Z * entry_info).
Variable cat : catalog.
Variable chips : chip_state.

Lemma transfers_flat_length log acc res :
  for_each (λ et, transfer_step em cat chips et.1 et.2) log acc = Ok res →
  length res = (length acc + length (filter (kept cat) log))%nat.
Proof.
  revert acc. induction log as [|[e t] log IH]; intros acc; simpl.
  - intros [= <-]. lia.
  - destruct (transfer_step em cat chips e t acc) as [acc'|] eqn:Hstep;
      simpl; [|done].
    intros Hres%IH. rewrite Hres, filter_cons.
    destruct (transfer_step_inv _ _ _ _ _ _ _ Hstep)
      as [[-> Hout]|(info & row & -> & _ & Hi & Ho & _)].
    + rewrite decide_False; [done|]. intros [? ?]. by destruct Hout.
    + rewrite decide_True by done. rewrite length_app. simpl. lia.
Qed.
End TransferCount.

(** X9: the transfer table has one row for every transfer of a fetched
    log whose two player ids are catalog keys, and no other row; a log
    whose fetch failed contributes none. *)
Theorem transfer_table_count (w : World) (g : globals) :
  run w = Ok g →
  length (df_transfers g)
  = length (filter (kept (cat g)) (transfer_log w (entries g)))
  ∧ ∀ e t, status_code (get_transfers w e) ≠ 200 →
           (e, t) ∉ transfer_log w (entries g).
Proof.
  intros (_ & _ & _ & _ & _ & Htr & Hdf)%run_inv. split.
  - rewrite Hdf, sort_transfers_perm. rewrite transfers_loop_flat in Htr.
    by apply transfers_flat_length in Htr.
  - intros e t Hne (_ & H200 & _)%elem_of_transfer_log. done.
Qed.

Lemma transfer_table_count_witness :
  ∃ g, run Demo.world = Ok g
       ∧ length (df_transfers g)
         = length (filter (kept (cat g)) (transfer_log Demo.world (entries g))).
Proof.
  eexists. split; [vm_compute; reflexivity|].
  refine (proj1 (transfer_table_count Demo.world _ _)).
  vm_compute. reflexivity.
Defined.

(** ** The two triple-captain views agree (lines 81-95 and 117-142) *)

(** X10: when the captaincy record of an entry for one of the 38
    gameweeks says "Yes", the entry's chip row names the same gameweek,
    the same captain and the same points: the chip loop and the
    captaincy loop read the same picks and live scores. *)
Theorem triple_captain_sheets_agree (w : World) (g : globals) (i : nat)
    (e gw : Z) (row : ChipRow.t) (crow : CaptaincyRow.t) :
  run w = Ok g →
  entries g !! i = Some e →
  df_chips g !! i = Some row →
  gw ∈ gameweeks →
  captaincy_record w g e gw crow →
  CaptaincyRow.triple_captain_used crow = "Yes" →
  ChipRow.triple_captain row = CInt gw
  ∧ ChipRow.triple_captain_player row = CaptaincyRow.captain crow
  ∧ ChipRow.tc_points row = CaptaincyRow.captain_points crow.
Proof.
  intros Hrun Hi Hrow Hgw%elem_of_gameweeks [Hlive Hcrow] Hyes.
  destruct (run_inv w g Hrun) as (_ & _ & _ & Hloop & _).
  destruct (chip_loop_inv _ _ _ _ _ Hloop) as (Hrows & _ & Htc).
  assert (chip_record w (entry_map g) (cat g) e row) as Hrec.
  { destruct (Forall2_lookup_l _ _ _ _ _ Hrows Hi) as (row' & Hrow' & Hrec).
    unfold df_chips in Hrow. congruence. }
  destruct (captaincy_entry_cases w (entry_map g) (cat g) (chips g) gw
              (points_map (json (get_live w gw))) e [])
    as [H|[(info & c & Hpicks & Hc & _ & H)|(x & H & _)]];
    rewrite H in Hcrow; [done| |done].
  injection Hcrow as <-. simpl in *.
  assert (stored_week "3xc" (get_history w e) = Some gw) as Hweek.
  { destruct (flag_cases gw (triple_captain_week_by_entry (chips g)) e)
      as [[_ Hs]|[Hno _]]; [|congruence].
    rewrite Htc in Hs. case_decide; congruence. }
  split.
  - destruct (chip_record_fields _ _ _ _ _ Hrec) as (_ & _ & _ & _ & _ & _
      & _ & _ & ->).
    unfold stored_week in Hweek.
    destruct (status_code (get_history w e) =? 200); [|done].
    by rewrite Hweek.
  - destruct (chip_record_resolved _ _ _ _ _ Hrec) as (d & _ & _ & Hres).
    rewrite Hweek in Hres. unfold resolve_triple_captain in Hres.
    simpl in Hres. destruct (Z.eqb_spec gw 0); [lia|].
    rewrite Hpicks, Hlive in Hres. simpl in Hres.
    destruct (Picks.picks (json (get_picks w e gw))) as [ps|]; [|done].
    simpl in Hc. rewrite Hc in Hres. by injection Hres as <-.
Qed.

Lemma triple_captain_sheets_agree_witness :
  ∃ g, run Demo.world = Ok g
       ∧ ∃ row, df_chips g !! 0%nat = Some row
                ∧ ChipRow.triple_captain row = CInt 15
                ∧ ChipRow.triple_captain_player row = CStr "Salah"
                ∧ ChipRow.tc_points row = CInt 18.
Proof.
  eexists. split; [vm_compute; reflexivity|].
  eexists. split; [vm_compute; reflexivity|].
  match goal with
  | |- ChipRow.triple_captain ?row = _ ∧ _ =>
      eapply (triple_captain_sheets_agree Demo.world _ 0 100 15 row
                {| CaptaincyRow.manager_name := "Alice";
                   CaptaincyRow.team_name := "Alpha FC";
                   CaptaincyRow.gameweek := 15;
                   CaptaincyRow.captain := CStr "Salah";
                   CaptaincyRow.captain_points := CInt 18;
                   CaptaincyRow.triple_captain_used := "Yes" |})
  end.
  - vm_compute. reflexivity.
  - vm_compute. reflexivity.
  - vm_compute. reflexivity.
  - apply elem_of_gameweeks. lia.
  - split; vm_compute; reflexivity.
  - reflexivity.
Defined.

(** X11: an (entry, gameweek) pair of a completed run has a captaincy
    record exactly when the gameweek's live scores and the entry's
    picks are available and the first captain-flagged pick has a
    non-zero player id; the record then carries the entry's names, the
    captain's catalog name and the captain's live total, the last two
    replaced by the sentinel when the id is not a key. *)
Theorem captaincy_record_iff (w : World) (g : globals) (e gw : Z) :
  run w = Ok g →
  e ∈ entries g →
  ((∃ row, captaincy_record w g e gw row)
   ↔ status_code (get_live w gw) = 200
     ∧ status_code (get_picks w e gw) = 200
     ∧ ∃ c, c ≠ 0
            ∧ captain_of (default [] (Picks.picks (json (get_picks w e gw))))
              = Some c)
  ∧ ∀ row,
      captaincy_record w g e gw row →
      ∃ info c,
        odict_getitem (entry_map g) e = Ok info
        ∧ captain_of (default [] (Picks.picks (json (get_picks w e gw))))
          = Some c
        ∧ CaptaincyRow.manager_name row = manager_name info
        ∧ CaptaincyRow.team_name row = team_name info
        ∧ CaptaincyRow.gameweek row = gw
        ∧ CaptaincyRow.captain row = dict_get_cell CStr (id_to_name (cat g)) c
        ∧ CaptaincyRow.captain_points row
          = dict_get_cell CInt (points_map (json (get_live w gw))) c.
Proof.
  intros Hrun He.
  destruct (run_entries w g Hrun) as [_ Hnames].
  destruct (Hnames e He) as [info Hinfo].
  assert (∀ o c, truthy o = Some c ↔ o = Some c ∧ c ≠ 0) as Htruthy.
  { intros [z|] c; simpl; [|split; [done|by intros [? _]]].
    destruct (Z.eqb_spec z 0) as [->|?]; split.
    - done.
    - intros [[= <-] ?]. done.
    - by intros [= <-].
    - by intros [[= <-] _]. }
  unfold captaincy_record.
  destruct (captaincy_entry_cases w (entry_map g) (cat g) (chips g) gw
              (points_map (json (get_live w gw))) e [])
    as [H|[(info' & c & Hpicks & Hc & Hinfo' & H)|(x & _ & Hx)]];
    [| |congruence]; rewrite H.
  - split; [|by intros row [_ [=]]]. split; [by intros [row [_ [=]]]|].
    intros (_ & Hpicks & c & Hc0 & Hc). exfalso.
    unfold captaincy_entry in H. rewrite Hpicks, Hinfo in H. simpl in H.
    rewrite (proj2 (Htruthy _ c)) in H by done. simpl in H.
    injection H as H. apply (f_equal length) in H. simpl in H. lia.
  - apply Htruthy in Hc as [Hc Hc0]. split.
    + split; [intros [row [? _]]|intros (? & _)]; eauto 8.
    + intros row [_ [= <-]]. exists info', c. by split_and!.
Qed.

Lemma captaincy_record_iff_witness :
  ∃ g, run Demo.world = Ok g ∧ ∃ row, captaincy_record Demo.world g 100 15 row.
Proof.
  eexists. split; [vm_compute; reflexivity|].
  refine (proj2 (proj1 (captaincy_record_iff Demo.world _ 100 15 _ _)) _).
  - vm_compute. reflexivity.
  - apply list_elem_of_In. vm_compute. tauto.
  - split_and!; [reflexivity..|]. exists 7. by split.
Defined.

(** ** The workbook (lines 183-201) *)

Lemma highlight_cell_rows (ws : worksheet) (r c : nat) :
  ws_rows (highlight_cell ws r c) = ws_rows ws.
Proof. unfold highlight_cell. by case_decide. Qed.

Lemma highlight_cell_value (ws : worksheet) (r c r' c' : nat) :
  cell_value (highlight_cell ws r c) r' c' = cell_value ws r' c'.
Proof. unfold cell_value. by rewrite highlight_cell_rows. Qed.

(** The loop over a list of row numbers: values stay, and a cell is
    green afterwards when it was before or it is a visited cell of
    column 6 that reads "Yes". *)
Lemma highlight_rows_spec (rs : list nat) (ws ws' : worksheet) :
  ws' = foldl (λ ws r, foldl (λ ws c, highlight_cell ws r c) ws (seq 6 1))
              ws rs →
  ws_rows ws' = ws_rows ws
  ∧ ∀ r c, (r, c) ∈ ws_green ws'
           ↔ (r, c) ∈ ws_green ws
             ∨ (c = 6%nat ∧ r ∈ rs
                ∧ cell_value ws r 6 = Some (CStr "Yes")).
Proof.
  revert ws. induction rs as [|r0 rs IH]; intros ws Hws'; simpl in Hws'.
  - subst ws'. split; [done|]. intros r c. split; [by left|].
    intros [?|(_ & []%not_elem_of_nil & _)]. done.
  - destruct (IH (highlight_cell ws r0 6) Hws') as [Hrows Hgreen].
    split; [by rewrite Hrows, highlight_cell_rows|].
    intros r c. rewrite Hgreen, highlight_cell_value. unfold highlight_cell.
    destruct (decide (cell_value ws r0 6 = Some (CStr "Yes"))) as [Hy|Hn];
      simpl.
    + rewrite elem_of_union, elem_of_singleton. split.
      * intros [[[= -> ->]|?]|(-> & Hr & Hv)]; [|by left|].
        -- right. split_and!; [done|left|done].
        -- right. split_and!; [done|by right|done].
      * intros [?|(-> & [->|Hr]%elem_of_cons & Hv)]; [by left; right| |].
        -- left. by left.
        -- right. done.
    + split.
      * intros [?|(-> & Hr & Hv)]; [by left|].
        right. split_and!; [done|by right|done].
      * intros [?|(-> & [->|Hr]%elem_of_cons & Hv)]; [by left|done|].
        right. done.
Qed.

(** X12: the styling loop changes no value; afterwards a cell carries
    the green fill exactly when it did before or it lies in column 6,
    in a row from 2 to the last row, and reads "Yes".  Row 1 and the
    other columns are never touched. *)
Theorem highlight_spec (ws : worksheet) :
  ws_rows (highlight ws) = ws_rows ws
  ∧ ∀ r c, (r, c) ∈ ws_green (highlight ws)
           ↔ (r, c) ∈ ws_green ws
             ∨ (c = 6%nat ∧ (2 ≤ r ≤ length (ws_rows ws))%nat
                ∧ cell_value ws r 6 = Some (CStr "Yes")).
Proof.
  unfold highlight.
  destruct (highlight_rows_spec (seq 2 (length (ws_rows ws) - 1)) ws _
              eq_refl) as [Hrows Hgreen].
  split; [done|]. intros r c. rewrite Hgreen, elem_of_seq.
  split; (intros [?|(? & ? & ?)]; [by left|right; split_and!; [done|lia..|done]]).
Qed.




